(** * Connection context of the server: a shallow embedding of
    [src/server/conn_context.cc]

    The development follows the source file top to bottom:
    - machine integers and the [for (unsigned i = 0; ...)] loops,
    - [StoredCmd]: capture of a command's arguments, [ArgList], [UsedMemory],
    - [ConnectionContext]: the squashing constructor,
    - the subscription operations and their replies,
    - [ClientTracking::ShouldTrackKeys].

    Types and constants that the source takes from headers that are not part
    of the translated file (integer widths of fields, the layout constants of
    the string and array containers) are collected in the record [Platform];
    every definition that depends on one takes the platform as an argument. *)

From Stdlib Require Import ZArith Lia.
From stdpp Require Import base option list list_numbers strings gmap.

Local Open Scope Z_scope.
Set Warnings "-clear-no-such-hyp".

(** ** Machine integers *)

(** An unsigned integer of [bits] bits: arithmetic wraps modulo [2 ^ bits]. *)
Definition wrap (bits : Z) (x : Z) : Z := x mod 2 ^ bits.

(** [unsigned] and [uint32_t]. *)
Definition u32 (x : Z) : Z := wrap 32 x.

(** [size_t]. *)
Definition usize (x : Z) : Z := wrap 64 x.

(** ** Header-declared widths and container layout *)

Record Platform := {
  (** width of one entry of [OwnStorage::sizes] *)
  size_bits : Z;
  (** number of entries the [sizes] array keeps inside its own object *)
  sizes_inline : Z;
  (** [sizeof] of the [sizes] array object, and the offset of its inline
      storage inside the object *)
  sizeof_sizes : Z;
  sizes_inline_off : Z;
  (** [sizeof(std::string)], the offset of its local buffer, the number of
      bytes the local buffer holds, and the capacity that the library picks
      for a heap buffer that must hold [n] bytes *)
  sizeof_string : Z;
  sso_off : Z;
  sso_cap : Z;
  heap_cap : Z -> Z;
  (** width of [ConnectionContext::subscriptions] *)
  subs_bits : Z;
  (** width of [ClientTracking::seq_num_] and [caching_seq_num_] *)
  seq_bits : Z
}.

(** What the code relies on: lengths are stored in at least 32 bits, inline
    storage lies inside the object, a heap buffer holds what was asked for
    and is smaller than half the address space. *)
Record platform_ok (P : Platform) : Prop := {
  size_bits_range : 32 <= size_bits P <= 64;
  sizes_inline_nonneg : 0 <= sizes_inline P;
  sizes_off_range : 0 <= sizes_inline_off P <= sizeof_sizes P;
  sso_off_range : 0 <= sso_off P <= sizeof_string P;
  sso_cap_nonneg : 0 <= sso_cap P;
  heap_cap_range : forall n, n < 2 ^ 63 -> n <= heap_cap P n < 2 ^ 63;
  subs_bits_pos : 0 < subs_bits P;
  seq_bits_pos : 0 < seq_bits P
}.

(** A 64-bit build against libstdc++: 32-byte strings with a 15-byte local
    buffer, lengths in a four-entry inline array of [uint32_t]. *)
Definition lp64 : Platform := {|
  size_bits := 32;
  sizes_inline := 4;
  sizeof_sizes := 24;
  sizes_inline_off := 8;
  sizeof_string := 32;
  sso_off := 16;
  sso_cap := 15;
  heap_cap := fun n => Z.max n 30;
  subs_bits := 8;
  seq_bits := 64
|}.

(** ** Loops counted by an [unsigned]

    [for (unsigned i = 0; i < n; i++) body] where [n] is a [size_t]: the
    counter wraps at [2 ^ 32], so the loop need not stop.  [fuel] bounds the
    number of tests of the condition; [None] is a loop that has not stopped
    within the fuel, or a body that failed. *)
Fixpoint for_unsigned {St : Type} (fuel : nat) (n : Z)
    (body : Z -> St -> option St) (i : Z) (s : St) : option St :=
  match fuel with
  | O => None
  | S fuel' =>
      if i <? n then
        match body i s with
        | Some s' => for_unsigned fuel' n body (u32 (i + 1)) s'
        | None => None
        end
      else Some s
  end.

(** The same loop without the counter's wrap-around and without fuel: the
    body applied to [i], [i + 1], ... in turn. *)
Fixpoint fold_range {St : Type} (body : Z -> St -> option St)
    (i : Z) (len : nat) (s : St) : option St :=
  match len with
  | O => Some s
  | S len' =>
      match body i s with
      | Some s' => fold_range body (i + 1) len' s'
      | None => None
      end
  end.

(** ** Memory, views and containers *)

Abbreviation addr := Z (only parsing).

(** Memory owned by the caller of [StoredCmd]: the bytes the argument views
    point into. *)
Definition memory := addr -> Byte.byte.

(** [std::string_view]: a pointer and a length. *)
Record string_view := { sv_data : addr; sv_size : Z }.

(** [absl::Span<const std::string_view>], as the views it spans. *)
Abbreviation ArgSlice := (list string_view).

(** The bytes a view denotes in a memory. *)
Definition sv_bytes (m : memory) (v : string_view) : list Byte.byte :=
  (fun k => m (sv_data v + k)) <$> seqZ 0 (sv_size v).

(** [std::string], as the standard library lays it out: the address of the
    object, of its data and the bytes it holds; the data is in the object's
    local buffer or on the heap. *)
Record std_string := {
  str_this : addr;
  str_data : addr;
  str_bytes : list Byte.byte;
  str_capacity : Z
}.

Definition string_size (s : std_string) : Z := Z.of_nat (length (str_bytes s)).

(** A default-constructed string is empty and uses its local buffer. *)
Definition string_empty (P : Platform) (this : addr) : std_string :=
  {| str_this := this; str_data := this + sso_off P; str_bytes := [];
     str_capacity := sso_cap P |}.

(** [s.resize(n)]: the first [n] bytes are kept, new bytes are zero; when [n]
    exceeds the capacity the data moves to a heap block at [heap]. *)
Definition string_resize (P : Platform) (heap : addr) (n : Z) (s : std_string)
    : std_string :=
  let bytes := resize (Z.to_nat n) Byte.x00 (str_bytes s) in
  if n <=? str_capacity s then
    {| str_this := str_this s; str_data := str_data s; str_bytes := bytes;
       str_capacity := str_capacity s |}
  else
    {| str_this := str_this s; str_data := heap; str_bytes := bytes;
       str_capacity := heap_cap P n |}.

(** [memcpy(p, src, len)] with [p] a pointer into the string's data; a copy
    that does not fit in the string is undefined. *)
Definition memcpy (s : std_string) (p : addr) (src : list Byte.byte)
    : option std_string :=
  let off := p - str_data s in
  if (0 <=? off) && (off + Z.of_nat (length src) <=? string_size s) then
    Some {| str_this := str_this s; str_data := str_data s;
            str_bytes := take (Z.to_nat off) (str_bytes s) ++ src ++
                         drop (Z.to_nat off + length src)%nat (str_bytes s);
            str_capacity := str_capacity s |}
  else None.

(** The array of lengths (the type is declared in the header): a fixed
    number of entries, kept inside the object when there are at most
    [sizes_inline] of them and on the heap otherwise. *)
Record fixed_array := {
  fa_this : addr;
  fa_data : addr;
  fa_elems : list Z
}.

Definition fixed_array_new (P : Platform) (this heap : addr) (n : Z)
    : fixed_array :=
  {| fa_this := this;
     fa_data := if n <=? sizes_inline P then this + sizes_inline_off P else heap;
     fa_elems := replicate (Z.to_nat n) 0 |}.

(** [a[i] = v]. *)
Definition fa_set (a : fixed_array) (i : Z) (v : Z) : fixed_array :=
  {| fa_this := fa_this a; fa_data := fa_data a;
     fa_elems := <[Z.to_nat i := v]> (fa_elems a) |}.

(** [a.memsize()]: the number of entries times the size of an entry. *)
Definition memsize (P : Platform) (a : fixed_array) : Z :=
  Z.of_nat (length (fa_elems a)) * (size_bits P / 8).

(** ** StoredCmd *)

Record OwnStorage := { buffer : std_string; sizes : fixed_array }.

Inductive ArgsVariant :=
  | Own (s : OwnStorage)
  | Borrowed (s : ArgSlice).

Inductive ReplyMode := ReplyMode_NONE | ReplyMode_ONLY_ERR | ReplyMode_FULL.

Record StoredCmd := {
  cid_ : addr;
  args_ : ArgsVariant;
  reply_mode_ : ReplyMode
}.

(** Where the pieces of an [OwnStorage] are placed: the addresses of the two
    member objects, and the heap blocks the allocator hands out if asked. *)
Record Placement := {
  buffer_at : addr;
  sizes_at : addr;
  buffer_heap : addr;
  sizes_heap : addr
}.

(** Heap blocks lie outside the objects that own them. *)
Definition placement_ok (P : Platform) (E : Placement) : Prop :=
  (buffer_heap E < buffer_at E \/ buffer_at E + sizeof_string P < buffer_heap E) /\
  (sizes_heap E < sizes_at E \/ sizes_at E + sizeof_sizes P < sizes_heap E).

(** [OwnStorage(n)]: [n] lengths and an empty buffer. *)
Definition OwnStorage_new (P : Platform) (E : Placement) (n : Z) : OwnStorage :=
  {| buffer := string_empty P (buffer_at E);
     sizes := fixed_array_new P (sizes_at E) (sizes_heap E) n |}.

(** [total_size += args.size()] over the arguments, in [size_t]. *)
Definition total_size (args : ArgSlice) : Z :=
  foldl (fun acc a => usize (acc + sv_size a)) 0 args.

(** The body of the copying loop; the state is [next] and the storage. *)
Definition copy_arg (P : Platform) (m : memory) (args : ArgSlice) (i : Z)
    (st : addr * OwnStorage) : option (addr * OwnStorage) :=
  let '(next, own) := st in
  match args !! Z.to_nat i with
  | None => None
  | Some a =>
      match (if 0 <? sv_size a then memcpy (buffer own) next (sv_bytes m a)
             else Some (buffer own)) with
      | None => None
      | Some buf =>
          Some (next + sv_size a,
                {| buffer := buf;
                   sizes := fa_set (sizes own) i (wrap (size_bits P) (sv_size a)) |})
      end
  end.

(** [StoredCmd::StoredCmd(cid, own_args, args)].  The copying loop gets the
    fuel of a run over all the arguments; the result is [None] when the loop
    does not end (see [for_unsigned_no_exit]) or a copy is undefined. *)
Definition StoredCmd_new (P : Platform) (E : Placement) (m : memory)
    (cid : addr) (own_args : bool) (args : ArgSlice) : option StoredCmd :=
  if negb own_args then
    Some {| cid_ := cid; args_ := Borrowed args; reply_mode_ := ReplyMode_FULL |}
  else
    let n := Z.of_nat (length args) in
    let own0 := OwnStorage_new P E n in
    let own1 := {| buffer := string_resize P (buffer_heap E) (total_size args)
                               (buffer own0);
                   sizes := sizes own0 |} in
    let next := str_data (buffer own1) in
    match for_unsigned (S (length args)) n (copy_arg P m args) 0 (next, own1) with
    | Some (_, own) =>
        Some {| cid_ := cid; args_ := Own own; reply_mode_ := ReplyMode_FULL |}
    | None => None
    end.

(** The body of the loop of [ArgList]; the state is [offset] and [*scratch]. *)
Definition ArgList_step (s : OwnStorage) (i : Z) (st : Z * list string_view)
    : option (Z * list string_view) :=
  let '(offset, scratch) := st in
  match fa_elems (sizes s) !! Z.to_nat i with
  | None => None
  | Some sz =>
      Some (u32 (offset + sz),
            <[Z.to_nat i := {| sv_data := str_data (buffer s) + offset;
                               sv_size := sz |}]> scratch)
  end.

(** [StoredCmd::ArgList(scratch)]: the returned views and [*scratch] after
    the call; the views of owned storage are the elements of [*scratch]. *)
Definition ArgList (c : StoredCmd) (scratch : list string_view)
    : option (ArgSlice * list string_view) :=
  match args_ c with
  | Own s =>
      let n := length (fa_elems (sizes s)) in
      let scratch0 := resize n {| sv_data := 0; sv_size := 0 |} scratch in
      match for_unsigned (S n) (Z.of_nat n) (ArgList_step s) 0 (0, scratch0) with
      | Some (_, scratch') => Some (scratch', scratch')
      | None => None
      end
  | Borrowed s => Some (s, scratch)
  end.

(** The bytes of a view that points into a string's data. *)
Definition buffer_bytes (s : std_string) (v : string_view) : list Byte.byte :=
  take (Z.to_nat (sv_size v)) (drop (Z.to_nat (sv_data v - str_data s)) (str_bytes s)).

Definition within_buffer (s : std_string) (v : string_view) : Prop :=
  str_data s <= sv_data v /\ 0 <= sv_size v /\
  sv_data v + sv_size v <= str_data s + string_size s.

(** Containers that [IsStoredInlined] is instantiated with. *)
Class Container (C : Type) := {
  c_this : C -> addr;
  c_sizeof : Platform -> Z;
  c_data : C -> addr
}.

#[global] Instance string_container : Container std_string :=
  {| c_this := str_this; c_sizeof := sizeof_string; c_data := str_data |}.

#[global] Instance sizes_container : Container fixed_array :=
  {| c_this := fa_this; c_sizeof := sizeof_sizes; c_data := fa_data |}.

Definition IsStoredInlined {C : Type} `{Container C} (P : Platform) (c : C) : bool :=
  let start := c_this c in
  let end_ := start + c_sizeof P in
  let data := c_data c in
  (start <=? data) && (data <=? end_).

(** [StoredCmd::UsedMemory()]. *)
Definition UsedMemory (P : Platform) (c : StoredCmd) : Z :=
  match args_ c with
  | Own s =>
      let buffer_size :=
        if IsStoredInlined P (buffer s) then 0 else str_capacity (buffer s) in
      let sz_size := if IsStoredInlined P (sizes s) then 0 else memsize P (sizes s) in
      usize (buffer_size + sz_size)
  | Borrowed _ => 0
  end.

(** ** Words used to state the properties of [StoredCmd] *)

Definition sum_Z (l : list Z) : Z := foldr Z.add 0 l.

(** The total number of argument bytes, as a number. *)
Definition sum_sizes (args : ArgSlice) : Z := sum_Z (sv_size <$> args).

(** The views of a tightly packed buffer at [base]: each one starts where
    the one before it ends. *)
Fixpoint packed_views (base off : Z) (szs : list Z) : list string_view :=
  match szs with
  | [] => []
  | sz :: szs' =>
      {| sv_data := base + off; sv_size := sz |} :: packed_views base (off + sz) szs'
  end.

(** An [OwnStorage] from its parts. *)
Definition own_of (bt bd bc ft fd : Z) (bytes : list Byte.byte) (elems : list Z)
    : OwnStorage :=
  {| buffer := {| str_this := bt; str_data := bd; str_bytes := bytes;
                  str_capacity := bc |};
     sizes := {| fa_this := ft; fa_data := fd; fa_elems := elems |} |}.

(** The storage that the owning constructor is meant to build: the bytes of
    the arguments one after the other and their lengths, in the local buffer
    and the inline array when they fit there. *)
Definition packed (P : Platform) (m : memory) (E : Placement) (args : ArgSlice)
    : OwnStorage :=
  own_of (buffer_at E)
    (if sum_sizes args <=? sso_cap P then buffer_at E + sso_off P
     else buffer_heap E)
    (if sum_sizes args <=? sso_cap P then sso_cap P
     else heap_cap P (sum_sizes args))
    (sizes_at E)
    (if Z.of_nat (length args) <=? sizes_inline P
     then sizes_at E + sizes_inline_off P else sizes_heap E)
    (concat (sv_bytes m <$> args))
    ((fun a => wrap (size_bits P) (sv_size a)) <$> args).

(** The bytes behind a view that [ArgList] returned for [c]: of the buffer
    of [c] when it owns its arguments, of the caller's memory otherwise. *)
Definition view_bytes (m : memory) (c : StoredCmd) (v : string_view)
    : list Byte.byte :=
  match args_ c with
  | Own s => buffer_bytes (buffer s) v
  | Borrowed _ => sv_bytes m v
  end.

(** ** The reply builder

    Modelled from the spec: the reply builder and its [ReplyScope] are
    declared in the reply layer; replies are ordered push-style frames, and
    the frames of a batch are wrapped in one scoped output region.  The
    builder is the log of the calls made on it, oldest first; a [ReplyScope]
    object brackets the calls made while it is alive. *)

Inductive CollectionType := ARRAY | MAP | SET | PUSH.

Inductive ReplyCall :=
  | StartCollection (len : Z) (type : CollectionType)
  | SendBulkString (s : string)
  | SendNull
  | SendLong (n : Z)
  | ReplyScopeBegin
  | ReplyScopeEnd.

Abbreviation RedisReplyBuilder := (list ReplyCall).

Definition SendSubscriptionChangedResponse (action : string)
    (topic : option string) (count : Z) (rb : RedisReplyBuilder)
    : RedisReplyBuilder :=
  let rb := rb ++ [StartCollection 3 PUSH] in
  let rb := rb ++ [SendBulkString action] in
  let rb := match topic with
            | Some t => rb ++ [SendBulkString t]
            | None => rb ++ [SendNull]
            end in
  rb ++ [SendLong count].

(** A push frame [[action, topic, count]] as the calls that produce it. *)
Definition push_frame (action : string) (topic : option string) (count : Z)
    : list ReplyCall :=
  [StartCollection 3 PUSH; SendBulkString action;
   match topic with Some t => SendBulkString t | None => SendNull end;
   SendLong count].

(** The frames of a log: the calls that are not scope brackets. *)
Definition is_scope_bracket (c : ReplyCall) : bool :=
  match c with
  | ReplyScopeBegin | ReplyScopeEnd => true
  | _ => false
  end.

Definition frame_calls (rb : RedisReplyBuilder) : list ReplyCall :=
  filter (fun c => is_scope_bracket c = false) rb.

(** ** Connection state *)

Record SubscribeInfo := {
  channels : gset string;
  patterns : gset string
}.

(** Modelled from the spec: [IsEmpty] is declared in the header; the record
    is empty when both sets are. *)
Definition IsEmpty (si : SubscribeInfo) : bool :=
  bool_decide (channels si = ∅) && bool_decide (patterns si = ∅).

(** Modelled from the spec: [SubscriptionCount] is declared in the header;
    it is the number of exact channels plus the number of patterns, here as
    the [unsigned] that the result vector stores. *)
Definition SubscriptionCount (si : SubscribeInfo) : Z :=
  u32 (Z.of_nat (size (channels si)) + Z.of_nat (size (patterns si))).

Record ConnectionState := {
  db_index : Z;
  subscribe_info : option SubscribeInfo;
  squashing_info : option addr
}.

(** [facade::Connection], as what the context asks of it. *)
Record Connection := {
  IsPrivileged : bool;
  IsMainOrMemcache : bool;
  GetClientId : Z
}.

(** Modelled from the spec: the channel store updater is defined in another
    file; [Record] appends a pending operation to its list without touching
    the shared index, [Apply] performs the update of the shared index in one
    pass. *)
Record ChannelStoreUpdater := {
  csu_pattern : bool;
  csu_to_add : bool;
  csu_tid : Z;
  csu_ops : list string
}.

Definition csu_Record (csu : ChannelStoreUpdater) (channel : string)
    : ChannelStoreUpdater :=
  {| csu_pattern := csu_pattern csu; csu_to_add := csu_to_add csu;
     csu_tid := csu_tid csu; csu_ops := csu_ops csu ++ [channel] |}.

(** What a subscription operation does besides changing the context, in the
    order in which it does it. *)
Inductive Effect :=
  | InfoCreated
  | Applied (csu : ChannelStoreUpdater)
  | InfoReset.

(** What [ChangeSubscriptions] may do besides changing the context:
    nothing, or one [Apply], preceded by the creation of the record or
    followed by its reset. *)
Definition effects_in_order (eff : list Effect) : Prop :=
  eff = [] \/
  exists csu, eff = [Applied csu] \/ eff = [InfoCreated; Applied csu] \/
              eff = [Applied csu; InfoReset].

(** [local_store.emplace(channel)]: the set and whether the channel is new. *)
Definition emplace (channel : string) (s : gset string) : gset string * bool :=
  (s ∪ {[channel]}, bool_decide (channel ∉ s)).

(** [local_store.erase(channel)]: the set and the number of erased entries. *)
Definition erase (channel : string) (s : gset string) : gset string * Z :=
  (s ∖ {[channel]}, if bool_decide (channel ∈ s) then 1 else 0).

Definition local_store (pattern : bool) (si : SubscribeInfo) : gset string :=
  if pattern then patterns si else channels si.

Definition set_local_store (pattern : bool) (s : gset string)
    (si : SubscribeInfo) : SubscribeInfo :=
  if pattern then {| channels := channels si; patterns := s |}
  else {| channels := s; patterns := patterns si |}.

(** The body of the loop of [ChangeSubscriptions]; the state is the record,
    the updater, the result vector and [i]. *)
Definition change_one (pattern to_add to_reply : bool)
    (st : SubscribeInfo * ChannelStoreUpdater * list Z * nat) (channel : string)
    : SubscribeInfo * ChannelStoreUpdater * list Z * nat :=
  let '(sinfo, csu, result, i) := st in
  let '(sinfo, csu) :=
    if to_add then
      let '(s, inserted) := emplace channel (local_store pattern sinfo) in
      (set_local_store pattern s sinfo,
       if inserted then csu_Record csu channel else csu)
    else
      let '(s, erased) := erase channel (local_store pattern sinfo) in
      (set_local_store pattern s sinfo,
       if 0 <? erased then csu_Record csu channel else csu) in
  if to_reply then (sinfo, csu, <[i := SubscriptionCount sinfo]> result, S i)
  else (sinfo, csu, result, i).

(** [action[to_add]]. *)
Definition action_name (unsub sub : string) (to_add : bool) : string :=
  if to_add then sub else unsub.

(** [ArgS(args, i)]. *)
Definition ArgS (args : list string) (i : nat) : string := default "" (args !! i).

(** The reply loop shared by [ChangeSubscription] and [ChangePSubscription]. *)
Definition send_results (action : string) (args : list string) (result : list Z)
    (rb : RedisReplyBuilder) : RedisReplyBuilder :=
  foldl (fun rb i =>
           SendSubscriptionChangedResponse action (Some (ArgS args i))
             (default 0 (result !! i)) rb)
        rb (seq 0 (length result)).

Section ConnectionContext.

(** The credential types of the ACL headers, the number of command
    families and the bitmap that allows no command. *)
Context {AclKeys AclPubSub : Type}.
Variable NumberOfFamilies : nat.
Variable NONE_COMMANDS : Z.

Record ConnectionContext := {
  conn : option Connection;
  subscriptions : Z;
  transaction : option addr;
  acl_commands : list Z;
  keys : AclKeys;
  pub_sub : AclPubSub;
  skip_acl_validation : bool;
  has_main_or_memcache_listener : bool;
  acl_db_idx : Z;
  ns : option addr;
  conn_state : ConnectionState
}.

Definition set_subscribe_info (si : option SubscribeInfo) (subs : Z)
    (cx : ConnectionContext) : ConnectionContext :=
  {| conn := conn cx; subscriptions := subs; transaction := transaction cx;
     acl_commands := acl_commands cx; keys := keys cx; pub_sub := pub_sub cx;
     skip_acl_validation := skip_acl_validation cx;
     has_main_or_memcache_listener := has_main_or_memcache_listener cx;
     acl_db_idx := acl_db_idx cx; ns := ns cx;
     conn_state := {| db_index := db_index (conn_state cx);
                      subscribe_info := si;
                      squashing_info := squashing_info (conn_state cx) |} |}.

Definition set_acl_commands (acl : list Z) (cx : ConnectionContext)
    : ConnectionContext :=
  {| conn := conn cx; subscriptions := subscriptions cx;
     transaction := transaction cx;
     acl_commands := acl; keys := keys cx; pub_sub := pub_sub cx;
     skip_acl_validation := skip_acl_validation cx;
     has_main_or_memcache_listener := has_main_or_memcache_listener cx;
     acl_db_idx := acl_db_idx cx; ns := ns cx;
     conn_state := conn_state cx |}.

(** [ConnectionContext::ConnectionContext(owner, tx)], constructing at
    [this] among the contexts [h] that are alive.  [blank] is a context whose members have the initial values
    that the headers give them.  Reading through a null or dangling
    [owner] is undefined. *)
Definition ConnectionContext_squashed (blank : ConnectionContext)
    (h : gmap addr ConnectionContext) (this : addr) (owner tx : option addr)
    : option (gmap addr ConnectionContext) :=
  let c0 :=
    {| conn := None; subscriptions := subscriptions blank; transaction := tx;
       acl_commands := acl_commands blank; keys := keys blank;
       pub_sub := pub_sub blank;
       skip_acl_validation := skip_acl_validation blank;
       has_main_or_memcache_listener := has_main_or_memcache_listener blank;
       acl_db_idx := acl_db_idx blank; ns := ns blank;
       conn_state := conn_state blank |} in
  let c1 :=
    match owner with
    | Some p =>
        match h !! p with
        | None => None
        | Some o =>
            Some {| conn := conn c0; subscriptions := subscriptions c0;
                    transaction := transaction c0;
                    acl_commands := acl_commands o; keys := keys o;
                    pub_sub := pub_sub o;
                    skip_acl_validation := skip_acl_validation o;
                    has_main_or_memcache_listener :=
                      match conn o with
                      | Some cn => IsMainOrMemcache cn
                      | None => has_main_or_memcache_listener c0
                      end;
                    acl_db_idx := acl_db_idx o; ns := ns o;
                    conn_state := conn_state c0 |}
        end
    | None => Some (set_acl_commands (replicate NumberOfFamilies NONE_COMMANDS) c0)
    end in
  match c1 with
  | None => None
  | Some c1 =>
      match tx with
      | None => Some (<[this := c1]> h)
      | Some _ =>
          match owner with
          | None => None
          | Some p =>
              match h !! p with
              | None => None
              | Some o =>
                  Some (<[this :=
                    {| conn := conn c1; subscriptions := subscriptions c1;
                       transaction := transaction c1;
                       acl_commands := acl_commands c1; keys := keys c1;
                       pub_sub := pub_sub c1;
                       skip_acl_validation := skip_acl_validation c1;
                       has_main_or_memcache_listener :=
                         has_main_or_memcache_listener c1;
                       acl_db_idx := acl_db_idx c1; ns := ns c1;
                       conn_state :=
                         {| db_index := db_index (conn_state o);
                            subscribe_info := subscribe_info (conn_state c1);
                            squashing_info := Some p |} |}]> h)
              end
          end
      end
  end.

(** [v[i] = x] on the ACL bitmap of the context at [p]. *)
Definition write_acl (p : addr) (i : nat) (x : Z)
    (h : gmap addr ConnectionContext) : gmap addr ConnectionContext :=
  alter (fun c => set_acl_commands (<[i := x]> (acl_commands c)) c) p h.

(** [ConnectionContext::ChangeSubscriptions]; [tid] is the index of the
    running thread in its pool.  The result vector, the context after the
    call and what was done, in order. *)
Definition ChangeSubscriptions (P : Platform) (tid : Z)
    (cx : ConnectionContext) (channels_ : list string)
    (pattern to_add to_reply : bool)
    : list Z * ConnectionContext * list Effect :=
  let result := replicate (if to_reply then length channels_ else 0%nat) 0 in
  if negb to_add && negb (bool_decide (is_Some (subscribe_info (conn_state cx))))
  then (result, cx, [])
  else
    let '(sinfo, subs, eff) :=
      match subscribe_info (conn_state cx) with
      | None =>
          ({| channels := ∅; patterns := ∅ |},
           wrap (subs_bits P) (subscriptions cx + 1), [InfoCreated])
      | Some si => (si, subscriptions cx, [])
      end in
    let csu := {| csu_pattern := pattern; csu_to_add := to_add;
                  csu_tid := u32 tid; csu_ops := [] |} in
    let '(sinfo, csu, result, _) :=
      foldl (change_one pattern to_add to_reply) (sinfo, csu, result, 0%nat)
            channels_ in
    let eff := eff ++ [Applied csu] in
    if negb to_add && IsEmpty sinfo then
      (result,
       set_subscribe_info None (wrap (subs_bits P) (subs - 1)) cx,
       eff ++ [InfoReset])
    else (result, set_subscribe_info (Some sinfo) subs cx, eff).

(** [ConnectionContext::ChangeSubscription]. *)
Definition ChangeSubscription (P : Platform) (tid : Z)
    (cx : ConnectionContext) (to_add to_reply : bool) (args : list string)
    (rb : RedisReplyBuilder)
    : ConnectionContext * RedisReplyBuilder * list Effect :=
  let '(result, cx, eff) := ChangeSubscriptions P tid cx args false to_add to_reply in
  if to_reply then
    let rb := rb ++ [ReplyScopeBegin] in
    let rb := send_results (action_name "unsubscribe" "subscribe" to_add)
                args result rb in
    (cx, rb ++ [ReplyScopeEnd], eff)
  else (cx, rb, eff).

(** [ConnectionContext::ChangePSubscription]. *)
Definition ChangePSubscription (P : Platform) (tid : Z)
    (cx : ConnectionContext) (to_add to_reply : bool) (args : list string)
    (rb : RedisReplyBuilder)
    : ConnectionContext * RedisReplyBuilder * list Effect :=
  let '(result, cx, eff) := ChangeSubscriptions P tid cx args true to_add to_reply in
  if to_reply then
    let action := action_name "punsubscribe" "psubscribe" to_add in
    if bool_decide (length result = 0%nat) then
      (cx, SendSubscriptionChangedResponse action None 0 rb, eff)
    else
      let rb := rb ++ [ReplyScopeBegin] in
      let rb := send_results action args result rb in
      (cx, rb ++ [ReplyScopeEnd], eff)
  else (cx, rb, eff).

(** [ConnectionContext::UnsubscribeAll]; reading the channels of an absent
    record is undefined.  The channels are passed on in the order in which
    the set enumerates them. *)
Definition UnsubscribeAll (P : Platform) (tid : Z) (cx : ConnectionContext)
    (to_reply : bool) (rb : RedisReplyBuilder)
    : option (ConnectionContext * RedisReplyBuilder * list Effect) :=
  if to_reply &&
     match subscribe_info (conn_state cx) with
     | None => true
     | Some si => bool_decide (channels si = ∅)
     end
  then Some (cx, SendSubscriptionChangedResponse "unsubscribe" None 0 rb, [])
  else
    match subscribe_info (conn_state cx) with
    | None => None
    | Some si =>
        Some (ChangeSubscription P tid cx false to_reply
                (elements (channels si)) rb)
    end.

(** [ConnectionContext::PUnsubscribeAll]. *)
Definition PUnsubscribeAll (P : Platform) (tid : Z) (cx : ConnectionContext)
    (to_reply : bool) (rb : RedisReplyBuilder)
    : option (ConnectionContext * RedisReplyBuilder * list Effect) :=
  if to_reply &&
     match subscribe_info (conn_state cx) with
     | None => true
     | Some si => bool_decide (patterns si = ∅)
     end
  then Some (cx, SendSubscriptionChangedResponse "punsubscribe" None 0 rb, [])
  else
    match subscribe_info (conn_state cx) with
    | None => None
    | Some si =>
        Some (ChangePSubscription P tid cx false to_reply
                (elements (patterns si)) rb)
    end.

(** [ConnectionContext::Unsubscribe(channel)]; the record must be
    present. *)
Definition Unsubscribe (P : Platform) (cx : ConnectionContext)
    (channel : string) : option (ConnectionContext * list Effect) :=
  match subscribe_info (conn_state cx) with
  | None => None
  | Some sinfo =>
      let '(s, _) := erase channel (channels sinfo) in
      let sinfo := {| channels := s; patterns := patterns sinfo |} in
      if IsEmpty sinfo then
        Some (set_subscribe_info None
                (wrap (subs_bits P) (subscriptions cx - 1)) cx, [InfoReset])
      else Some (set_subscribe_info (Some sinfo) (subscriptions cx) cx, [])
  end.

(** A record that is present has a set that is not empty (the sets live in
    the record: without a record there is no subscription). *)
Definition info_invariant (cx : ConnectionContext) : Prop :=
  match subscribe_info (conn_state cx) with
  | None => True
  | Some si => channels si <> ∅ \/ patterns si <> ∅
  end.

End ConnectionContext.

(** ** Client tracking *)

Inductive Options := NONE | OPTIN | OPTOUT.

Record ClientTracking := {
  tracking_enabled_ : bool;
  noloop_ : bool;
  option_ : Options;
  seq_num_ : Z;
  caching_seq_num_ : Z
}.

(** Modelled from the spec: [IsTrackingOn] is declared in the header; it
    tells whether tracking is on. *)
Definition IsTrackingOn (ct : ClientTracking) : bool := tracking_enabled_ ct.

Definition Options_eqb (a b : Options) : bool :=
  match a, b with
  | NONE, NONE | OPTIN, OPTIN | OPTOUT, OPTOUT => true
  | _, _ => false
  end.

Definition ShouldTrackKeys (P : Platform) (ct : ClientTracking) : bool :=
  if negb (IsTrackingOn ct) then false
  else if noloop_ ct then false
  else if Options_eqb (option_ ct) NONE then true
  else
    let match_ := seq_num_ ct =? wrap (seq_bits P) (1 + caching_seq_num_ ct) in
    if Options_eqb (option_ ct) OPTIN then match_ else negb match_.

(** ** Concrete commands *)

(** The two member objects side by side, and two heap blocks far from them. *)
Definition placement0 : Placement :=
  {| buffer_at := 1000; sizes_at := 1032; buffer_heap := 5000; sizes_heap := 9000 |}.

(** A memory that holds the byte y at address [2 ^ 32] and x everywhere
    else. *)
Definition xy_memory : memory :=
  fun a => if a =? 2 ^ 32 then Byte.x79 else Byte.x78.

(** The arguments xx, the empty string and y. *)
Definition small_args : ArgSlice :=
  [ {| sv_data := 10; sv_size := 2 |};
    {| sv_data := 20; sv_size := 0 |};
    {| sv_data := 2 ^ 32; sv_size := 1 |} ].

(** One argument of sixteen bytes. *)
Definition long_args : ArgSlice := [ {| sv_data := 0; sv_size := 16 |} ].

(** Three arguments of [2 ^ 32 - 1] bytes, one byte and one byte, one after
    the other from address 0: x repeated, x and y. *)
Definition huge_args : ArgSlice :=
  [ {| sv_data := 0; sv_size := 2 ^ 32 - 1 |};
    {| sv_data := 2 ^ 32 - 1; sv_size := 1 |};
    {| sv_data := 2 ^ 32; sv_size := 1 |} ].

(** ** Concrete contexts *)

(** A context of a connection that has subscribed to nothing. *)
Definition fresh_context : @ConnectionContext unit unit :=
  {| conn := None; subscriptions := 0; transaction := None; acl_commands := [0; 0];
     keys := tt; pub_sub := tt; skip_acl_validation := false;
     has_main_or_memcache_listener := false; acl_db_idx := 0; ns := None;
     conn_state := {| db_index := 0; subscribe_info := None;
                      squashing_info := None |} |}.

(** The same connection after it subscribed to the channels a and b. *)
Definition context_ab : @ConnectionContext unit unit :=
  set_subscribe_info (Some {| channels := {["a"; "b"]}; patterns := ∅ |}) 1
    fresh_context.

(** ** The other members of [StoredCmd] *)

(** [dst = std::move(src)] as the standard library does it: a source that
    uses its local buffer has its bytes copied into the storage of the
    destination, here a default-constructed string; a source on the heap
    hands over its block. *)
Definition string_move (P : Platform) (dst src : std_string) : std_string :=
  if str_data src =? str_this src + sso_off P then
    {| str_this := str_this dst; str_data := str_data dst;
       str_bytes := str_bytes src; str_capacity := str_capacity dst |}
  else
    {| str_this := str_this dst; str_data := str_data src;
       str_bytes := str_bytes src; str_capacity := str_capacity src |}.

(** The body of the loop of the adopting constructor, in a release build
    (the contiguity of the arguments is checked in debug builds only). *)
Definition adopt_size (P : Platform) (args : ArgSlice) (i : Z) (own : OwnStorage)
    : option OwnStorage :=
  match args !! Z.to_nat i with
  | None => None
  | Some a =>
      Some {| buffer := buffer own;
              sizes := fa_set (sizes own) i (wrap (size_bits P) (sv_size a)) |}
  end.

(** [StoredCmd::StoredCmd(std::move(buffer), cid, args, mode)]. *)
Definition StoredCmd_adopt (P : Platform) (E : Placement) (buf : std_string)
    (cid : addr) (args : ArgSlice) (mode : ReplyMode) : option StoredCmd :=
  let n := Z.of_nat (length args) in
  let own0 := OwnStorage_new P E n in
  let own1 := {| buffer := string_move P (buffer own0) buf; sizes := sizes own0 |} in
  match for_unsigned (S (length args)) n (adopt_size P args) 0 own1 with
  | Some own => Some {| cid_ := cid; args_ := Own own; reply_mode_ := mode |}
  | None => None
  end.

(** What the adopting constructor is meant to build: the moved buffer and
    the lengths of the arguments. *)
Definition adopted (P : Platform) (E : Placement) (buf : std_string)
    (args : ArgSlice) : OwnStorage :=
  {| buffer := string_move P (string_empty P (buffer_at E)) buf;
     sizes := {| fa_this := sizes_at E;
                 fa_data := if Z.of_nat (length args) <=? sizes_inline P
                            then sizes_at E + sizes_inline_off P
                            else sizes_heap E;
                 fa_elems := (fun a => wrap (size_bits P) (sv_size a)) <$> args |} |}.

(** Modelled from the spec: [NumArgs] is declared in the header; the first
    argument is empty if there is none: the number of stored arguments. *)
Definition NumArgs (c : StoredCmd) : Z :=
  match args_ c with
  | Own s => Z.of_nat (length (fa_elems (sizes s)))
  | Borrowed s => Z.of_nat (length s)
  end.

(** [StoredCmd::FirstArg()]; [substr(0, n)] stops at the end of the
    string. *)
Definition FirstArg (m : memory) (c : StoredCmd) : list Byte.byte :=
  if NumArgs c =? 0 then []
  else
    match args_ c with
    | Own s =>
        match fa_elems (sizes s) !! 0%nat with
        | Some sz => take (Z.to_nat sz) (str_bytes (buffer s))
        | None => []
        end
    | Borrowed s =>
        match s !! 0%nat with
        | Some a => sv_bytes m a
        | None => []
        end
    end.


(** The views that [ArgList] computes from recorded lengths: each one starts
    where the one before it ends, the offset kept in 32 bits. *)
Fixpoint wrapped_views (base off : Z) (szs : list Z) : list string_view :=
  match szs with
  | [] => []
  | sz :: szs' =>
      {| sv_data := base + off; sv_size := sz |} ::
      wrapped_views base (u32 (off + sz)) szs'
  end.

(** ** Words used to state the properties of the subscription operations *)

(** The record of a context, or an empty one when it has none. *)
Definition info_or_empty (o : option SubscribeInfo) : SubscribeInfo :=
  default {| channels := ∅; patterns := ∅ |} o.

(** The record after the channels were added to, or removed from, the
    local set. *)
Definition info_after (pattern to_add : bool) (chs : list string)
    (si : SubscribeInfo) : SubscribeInfo :=
  set_local_store pattern
    (if to_add then local_store pattern si ∪ list_to_set chs
     else local_store pattern si ∖ list_to_set chs) si.

(** The record after one channel was added to, or removed from, the local
    set. *)
Definition info_step (pattern to_add : bool) (ch : string) (si : SubscribeInfo)
    : SubscribeInfo :=
  set_local_store pattern
    (if to_add then local_store pattern si ∪ {[ch]}
     else local_store pattern si ∖ {[ch]}) si.

(** The count after each channel of a list, in order. *)
Fixpoint running_counts (pattern to_add : bool) (si : SubscribeInfo)
    (chs : list string) : list Z :=
  match chs with
  | [] => []
  | ch :: chs' =>
      SubscriptionCount (info_step pattern to_add ch si) ::
      running_counts pattern to_add (info_step pattern to_add ch si) chs'
  end.

(** The channels of a list that change a set, in order: those that are new
    to it when adding, those that are in it when removing. *)
Fixpoint changed (to_add : bool) (s : gset string) (chs : list string)
    : list string :=
  match chs with
  | [] => []
  | ch :: chs' =>
      let rest := changed to_add (if to_add then s ∪ {[ch]} else s ∖ {[ch]}) chs' in
      if bool_decide (ch ∈ s) then (if to_add then rest else ch :: rest)
      else (if to_add then ch :: rest else rest)
  end.

(** An updater with more channels recorded. *)
Definition csu_add (csu : ChannelStoreUpdater) (chs : list string)
    : ChannelStoreUpdater :=
  {| csu_pattern := csu_pattern csu; csu_to_add := csu_to_add csu;
     csu_tid := csu_tid csu; csu_ops := csu_ops csu ++ chs |}.

Section SubscriptionWords.

Context {AclKeys AclPubSub : Type}.
Implicit Types (cx : @ConnectionContext AclKeys AclPubSub).
Implicit Types (P : Platform) (tid : Z) (chs : list string).

(** The context after a call that is not the early return. *)
Definition context_after P cx chs (pattern to_add : bool)
    : @ConnectionContext AclKeys AclPubSub :=
  let si' := info_after pattern to_add chs
               (info_or_empty (subscribe_info (conn_state cx))) in
  let subs := match subscribe_info (conn_state cx) with
              | Some _ => subscriptions cx
              | None => wrap (subs_bits P) (subscriptions cx + 1)
              end in
  if negb to_add && IsEmpty si'
  then set_subscribe_info None (wrap (subs_bits P) (subs - 1)) cx
  else set_subscribe_info (Some si') subs cx.

(** The updater of a call when it is applied. *)
Definition updater_after tid cx chs (pattern to_add : bool) : ChannelStoreUpdater :=
  {| csu_pattern := pattern; csu_to_add := to_add; csu_tid := u32 tid;
     csu_ops := changed to_add
                  (local_store pattern
                     (info_or_empty (subscribe_info (conn_state cx)))) chs |}.

(** [ConnectionContext::UnsubscribeAll] with the enumeration of the hash
    set made explicit: [order] is the sequence that
    [StringVec channels(begin, end)] reads off the set, in whatever order
    the container walks its elements. *)
Definition UnsubscribeAll_in (order : list string) P tid cx
    (to_reply : bool) (rb : RedisReplyBuilder)
    : option (@ConnectionContext AclKeys AclPubSub * RedisReplyBuilder *
              list Effect) :=
  if to_reply &&
     match subscribe_info (conn_state cx) with
     | None => true
     | Some si => bool_decide (channels si = ∅)
     end
  then Some (cx, SendSubscriptionChangedResponse "unsubscribe" None 0 rb, [])
  else
    match subscribe_info (conn_state cx) with
    | None => None
    | Some _ => Some (ChangeSubscription P tid cx false to_reply order rb)
    end.

(** [ConnectionContext::PUnsubscribeAll], likewise, with the enumeration
    of the patterns explicit. *)
Definition PUnsubscribeAll_in (order : list string) P tid cx
    (to_reply : bool) (rb : RedisReplyBuilder)
    : option (@ConnectionContext AclKeys AclPubSub * RedisReplyBuilder *
              list Effect) :=
  if to_reply &&
     match subscribe_info (conn_state cx) with
     | None => true
     | Some si => bool_decide (patterns si = ∅)
     end
  then Some (cx, SendSubscriptionChangedResponse "punsubscribe" None 0 rb, [])
  else
    match subscribe_info (conn_state cx) with
    | None => None
    | Some _ => Some (ChangePSubscription P tid cx false to_reply order rb)
    end.

End SubscriptionWords.

(** ** The constructor of a root context *)

Section RootContext.

Context {AclKeys AclPubSub : Type}.
Variable NumberOfFamilies : nat.
Variable NONE_COMMANDS : Z.

(** [acl::UserCredentials], as the constructor reads it. *)
Record UserCredentials := {
  cred_keys : AclKeys;
  cred_pub_sub : AclPubSub;
  cred_acl_commands : list Z;
  cred_db : Z
}.

(** [ConnectionContext::ConnectionContext(owner, cred)]; [blank] is a
    context whose members have the initial values that the headers give
    them. *)
Definition ConnectionContext_root (blank : @ConnectionContext AclKeys AclPubSub)
    (owner : option Connection) (cred : UserCredentials)
    : @ConnectionContext AclKeys AclPubSub :=
  {| conn := owner;
     subscriptions := subscriptions blank;
     transaction := transaction blank;
     acl_commands :=
       if bool_decide (cred_acl_commands cred = [])
       then replicate NumberOfFamilies NONE_COMMANDS
       else cred_acl_commands cred;
     keys := cred_keys cred;
     pub_sub := cred_pub_sub cred;
     skip_acl_validation :=
       match owner with
       | Some cn => IsPrivileged cn
       | None => skip_acl_validation blank
       end;
     has_main_or_memcache_listener :=
       match owner with
       | Some cn => IsMainOrMemcache cn
       | None => has_main_or_memcache_listener blank
       end;
     acl_db_idx := cred_db cred;
     ns := ns blank;
     conn_state := conn_state blank |}.

End RootContext.

(** A buffer on the heap that holds the bytes x, x and y, and the three
    arguments xx, the empty string and y inside it. *)
Definition heap_buffer : std_string :=
  {| str_this := 300; str_data := 7000;
     str_bytes := [Byte.x78; Byte.x78; Byte.x79]; str_capacity := 30 |}.

Definition heap_buffer_args : ArgSlice :=
  [ {| sv_data := 7000; sv_size := 2 |};
    {| sv_data := 7002; sv_size := 0 |};
    {| sv_data := 7002; sv_size := 1 |} ].

(** A context that subscribed to the channel a and to the pattern p. *)
Definition context_a_p : @ConnectionContext unit unit :=
  set_subscribe_info (Some {| channels := {["a"]}; patterns := {["p"]} |}) 1
    fresh_context.

(** * Theorems *)

(** ** Machine integers and counted loops *)

Lemma wrap_small bits x : 0 <= x < 2 ^ bits -> wrap bits x = x.
Proof. intros H. unfold wrap. apply Z.mod_small. exact H. Qed.

(** A loop over fewer than [2 ^ 32] indices stops, and its counter does not
    wrap. *)
Lemma for_unsigned_fold_range {St : Type} (body : Z -> St -> option St)
    (n : Z) (k : nat) :
  forall (i : Z) (s : St) (fuel : nat),
    0 <= i -> i + Z.of_nat k = n -> n < 2 ^ 32 -> (k < fuel)%nat ->
    for_unsigned fuel n body i s = fold_range body i k s.
Proof.
  induction k as [|k IH]; intros i s fuel Hi Hn Hlt Hf;
    (destruct fuel as [|fuel]; [lia|]); simpl.
  - rewrite (proj2 (Z.ltb_ge i n)) by lia. reflexivity.
  - rewrite (proj2 (Z.ltb_lt i n)) by lia.
    destruct (body i s) as [s'|]; [|reflexivity].
    unfold u32. rewrite wrap_small by lia. apply IH; lia.
Qed.

(** A loop over [2 ^ 32] indices or more never leaves: whatever the fuel,
    it has not stopped. *)
Lemma for_unsigned_no_exit {St : Type} (body : Z -> St -> option St) (n : Z) :
  2 ^ 32 <= n ->
  forall (fuel : nat) (i : Z) (s : St),
    0 <= i < 2 ^ 32 -> for_unsigned fuel n body i s = None.
Proof.
  intros Hn. induction fuel as [|fuel IH]; intros i s Hi; [reflexivity|].
  simpl. rewrite (proj2 (Z.ltb_lt i n)) by lia.
  destruct (body i s) as [s'|]; [|reflexivity].
  apply IH. unfold u32, wrap. apply Z.mod_pos_bound. lia.
Qed.

(** The 64-bit platform meets what the code relies on. *)
Lemma lp64_ok : platform_ok lp64.
Proof. split; simpl; intros; lia. Qed.

(** ** StoredCmd *)

Section StoredCmd.

Variable P : Platform.
Variable m : memory.

Local Abbreviation nonneg := (fun a : string_view => 0 <= sv_size a).
Local Abbreviation szf := (fun a : string_view => wrap (size_bits P) (sv_size a)).

Lemma length_sv_bytes (a : string_view) :
  length (sv_bytes m a) = Z.to_nat (sv_size a).
Proof. unfold sv_bytes. rewrite length_fmap, length_seqZ. reflexivity. Qed.

Lemma sv_bytes_cons (a : string_view) :
  0 < sv_size a ->
  sv_bytes m a =
  m (sv_data a) :: sv_bytes m {| sv_data := sv_data a + 1; sv_size := sv_size a - 1 |}.
Proof.
  intros Hpos. unfold sv_bytes; simpl. rewrite seqZ_cons by exact Hpos.
  rewrite fmap_cons, Z.add_0_r. f_equal.
  rewrite <- (fmap_add_seqZ 1 0), <- list_fmap_compose.
  apply list_fmap_ext. intros _ k _; simpl. f_equal. lia.
Qed.

Lemma length_concat_bytes (args : ArgSlice) :
  Forall nonneg args ->
  Z.of_nat (length (concat (sv_bytes m <$> args))) = sum_sizes args.
Proof.
  unfold sum_sizes. induction 1 as [|a args Ha _ IH]; [reflexivity|].
  rewrite !fmap_cons; cbn [concat sum_Z foldr].
  rewrite length_app, length_sv_bytes, Nat2Z.inj_add, Z2Nat.id by exact Ha.
  fold (sum_Z (sv_size <$> args)). rewrite IH. reflexivity.
Qed.

Lemma sum_sizes_nonneg (args : ArgSlice) : Forall nonneg args -> 0 <= sum_sizes args.
Proof. intros H. rewrite <- length_concat_bytes by exact H. lia. Qed.

Lemma total_size_sum (args : ArgSlice) :
  Forall nonneg args -> sum_sizes args < 2 ^ 64 -> total_size args = sum_sizes args.
Proof.
  unfold total_size. intros Hnn Hlt.
  enough (Hgen : forall acc, 0 <= acc -> acc + sum_sizes args < 2 ^ 64 ->
            foldl (fun acc a => usize (acc + sv_size a)) acc args =
            acc + sum_sizes args).
  { rewrite Hgen by lia. lia. }
  clear Hlt. induction Hnn as [|a args Ha Hnn IH]; intros acc Hacc Hlt.
  - unfold sum_sizes; simpl. lia.
  - pose proof (sum_sizes_nonneg args Hnn) as Hs.
    unfold sum_sizes in *. rewrite fmap_cons in *. cbn [foldl sum_Z foldr] in *.
    fold (sum_Z (sv_size <$> args)) in *.
    unfold usize. rewrite wrap_small by lia. rewrite IH by lia. lia.
Qed.

(** *** The copying loop of the constructor *)

Lemma copy_arg_step (args done rest : ArgSlice) (a : string_view)
    (bt bd bc ft fd : Z) (pre tail : list Byte.byte) (szs zs : list Z) (z : Z) :
  args = done ++ a :: rest ->
  0 <= sv_size a ->
  length szs = length done ->
  (length (sv_bytes m a) <= length tail)%nat ->
  copy_arg P m args (Z.of_nat (length done))
    (bd + Z.of_nat (length pre), own_of bt bd bc ft fd (pre ++ tail) (szs ++ z :: zs)) =
  Some (bd + Z.of_nat (length (pre ++ sv_bytes m a)),
        own_of bt bd bc ft fd
          ((pre ++ sv_bytes m a) ++ drop (length (sv_bytes m a)) tail)
          ((szs ++ [szf a]) ++ zs)).
Proof.
  intros -> Ha Hszs Htail. unfold copy_arg, own_of.
  rewrite Nat2Z.id, list_lookup_middle by reflexivity.
  cbn [buffer sizes].
  assert (Hsizes : fa_set {| fa_this := ft; fa_data := fd; fa_elems := szs ++ z :: zs |}
                     (Z.of_nat (length done)) (szf a) =
                   {| fa_this := ft; fa_data := fd;
                      fa_elems := (szs ++ [szf a]) ++ zs |}).
  { unfold fa_set; cbn [fa_this fa_data fa_elems]. f_equal.
    rewrite Nat2Z.id, <- Hszs, <- (Nat.add_0_r (length szs)), insert_app_r.
    rewrite <- app_assoc. reflexivity. }
  rewrite Hsizes. rewrite length_app, Nat2Z.inj_add, Z.add_assoc.
  pose proof (length_sv_bytes a) as Hlen.
  destruct (0 <? sv_size a) eqn:Hpos.
  - unfold memcpy, string_size; cbn [str_data str_bytes str_this str_capacity].
    replace (bd + Z.of_nat (length pre) - bd) with (Z.of_nat (length pre)) by lia.
    rewrite length_app.
    rewrite andb_true_intro by (split; [apply Z.leb_le | apply Z.leb_le]; lia).
    rewrite Nat2Z.id, take_app_length, <- drop_drop, drop_app_length.
    rewrite Hlen, Z2Nat.id by lia. rewrite <- !app_assoc. reflexivity.
  - apply Z.ltb_ge in Hpos. assert (Hz : sv_size a = 0) by lia.
    assert (Hnil : sv_bytes m a = []).
    { apply length_zero_iff_nil. rewrite Hlen, Hz. reflexivity. }
    rewrite Hnil, Hz, app_nil_r, drop_0. cbn [length Z.of_nat].
    rewrite !Z.add_0_r. reflexivity.
Qed.

Lemma copy_loop_spec (args : ArgSlice) (bt bd bc ft fd : Z) :
  forall (rest done : ArgSlice) (pre tail : list Byte.byte) (szs zs : list Z),
    args = done ++ rest ->
    Forall nonneg rest ->
    length szs = length done ->
    length zs = length rest ->
    length tail = length (concat (sv_bytes m <$> rest)) ->
    fold_range (copy_arg P m args) (Z.of_nat (length done)) (length rest)
      (bd + Z.of_nat (length pre), own_of bt bd bc ft fd (pre ++ tail) (szs ++ zs)) =
    Some (bd + Z.of_nat (length (pre ++ concat (sv_bytes m <$> rest))),
          own_of bt bd bc ft fd (pre ++ concat (sv_bytes m <$> rest))
            (szs ++ (szf <$> rest))).
Proof.
  induction rest as [|a rest IH]; intros done pre tail szs zs Hargs Hnn Hszs Hzs Htail.
  - destruct zs; [|discriminate]. destruct tail; [|discriminate].
    cbn [fmap list_fmap concat fold_range length]. rewrite !app_nil_r. reflexivity.
  - destruct zs as [|z zs]; [discriminate|].
    apply Forall_cons in Hnn as [Ha Hnn].
    rewrite fmap_cons in *. cbn [concat] in *. rewrite length_app in Htail.
    cbn [length fold_range].
    rewrite (copy_arg_step args done rest a) by (try assumption; lia).
    replace (Z.of_nat (length done) + 1) with (Z.of_nat (length (done ++ [a])))
      by (rewrite length_app; simpl; lia).
    rewrite (IH (done ++ [a]) (pre ++ sv_bytes m a)
               (drop (length (sv_bytes m a)) tail) (szs ++ [szf a]) zs).
    + rewrite <- !app_assoc. reflexivity.
    + rewrite <- app_assoc. exact Hargs.
    + exact Hnn.
    + rewrite !length_app, Hszs. reflexivity.
    + simpl in Hzs. lia.
    + rewrite length_drop. lia.
Qed.

Lemma copy_loop_all (args : ArgSlice) (bt bd bc ft fd : Z)
    (tail : list Byte.byte) (zs : list Z) :
  Forall nonneg args ->
  length zs = length args ->
  length tail = length (concat (sv_bytes m <$> args)) ->
  fold_range (copy_arg P m args) 0 (length args)
    (bd, own_of bt bd bc ft fd tail zs) =
  Some (bd + sum_sizes args,
        own_of bt bd bc ft fd (concat (sv_bytes m <$> args)) (szf <$> args)).
Proof.
  intros Hnn Hzs Htail.
  pose proof (copy_loop_spec args bt bd bc ft fd args [] [] tail [] zs
                eq_refl Hnn eq_refl Hzs Htail) as H.
  cbn [length app] in H. change (Z.of_nat 0) with 0 in H.
  rewrite Z.add_0_r in H. rewrite H.
  rewrite length_concat_bytes by exact Hnn. reflexivity.
Qed.

(** With fewer than [2 ^ 32] arguments the constructor returns, and what
    it has built is [packed]. *)
Lemma StoredCmd_new_own (E : Placement) (cid : Z) (args : ArgSlice) :
  Forall nonneg args ->
  Z.of_nat (length args) < 2 ^ 32 ->
  sum_sizes args < 2 ^ 64 ->
  StoredCmd_new P E m cid true args =
  Some {| cid_ := cid; args_ := Own (packed P m E args);
          reply_mode_ := ReplyMode_FULL |}.
Proof.
  intros Hnn Hn Hsum. unfold StoredCmd_new; cbn [negb].
  rewrite total_size_sum by assumption.
  rewrite (for_unsigned_fold_range _ _ (length args)) by lia.
  unfold OwnStorage_new, string_resize, string_empty, fixed_array_new, packed.
  cbn [buffer sizes str_this str_data str_bytes str_capacity].
  rewrite resize_nil.
  pose proof (length_concat_bytes args Hnn) as Hlen.
  destruct (sum_sizes args <=? sso_cap P);
    cbn [str_data];
    match goal with |- context [fold_range _ _ _ (?bd, ?o)] =>
      change o with (own_of (buffer_at E) bd
        (str_capacity (buffer o)) (sizes_at E) (fa_data (sizes o))
        (replicate (Z.to_nat (sum_sizes args)) Byte.x00)
        (replicate (Z.to_nat (Z.of_nat (length args))) 0))
    end;
    rewrite copy_loop_all
      by (try assumption; rewrite length_replicate; lia);
    reflexivity.
Qed.

(** *** The loop of [ArgList] *)

Lemma ArgList_loop_spec (s : OwnStorage) :
  forall (rest done : list Z) (off : Z) (sdone srest : list string_view),
    fa_elems (sizes s) = done ++ rest ->
    length sdone = length done ->
    length srest = length rest ->
    Forall (fun z => 0 <= z) rest ->
    0 <= off ->
    off + sum_Z rest < 2 ^ 32 ->
    fold_range (ArgList_step s) (Z.of_nat (length done)) (length rest)
      (off, sdone ++ srest) =
    Some (off + sum_Z rest,
          sdone ++ packed_views (str_data (buffer s)) off rest).
Proof.
  induction rest as [|sz rest IH];
    intros done off sdone srest Helems Hsd Hsr Hnn Hoff Hlt.
  - destruct srest; [|discriminate]. cbn [length fold_range sum_Z foldr packed_views].
    rewrite Z.add_0_r. reflexivity.
  - destruct srest as [|v srest]; [discriminate|].
    apply Forall_cons in Hnn as [Hsz Hnn].
    cbn [sum_Z foldr] in Hlt. fold (sum_Z rest) in Hlt.
    assert (Hsum : 0 <= sum_Z rest).
    { clear -Hnn. induction Hnn; cbn [sum_Z foldr]; [lia|].
      fold (sum_Z l). lia. }
    cbn [length fold_range]. unfold ArgList_step at 1.
    rewrite Nat2Z.id, Helems, list_lookup_middle by reflexivity.
    unfold u32. rewrite wrap_small by lia.
    rewrite <- Hsd, <- (Nat.add_0_r (length sdone)), insert_app_r.
    cbn [insert list_insert]. rewrite Nat.add_0_r, Hsd.
    replace (Z.of_nat (length done) + 1) with (Z.of_nat (length (done ++ [sz])))
      by (rewrite length_app; simpl; lia).
    rewrite (cons_middle _ sdone), app_assoc.
    rewrite (IH (done ++ [sz]) (off + sz)).
    + cbn [packed_views sum_Z foldr]. fold (sum_Z rest).
      rewrite <- app_assoc, Z.add_assoc. reflexivity.
    + rewrite <- app_assoc. exact Helems.
    + rewrite !length_app, Hsd. reflexivity.
    + simpl in Hsr. lia.
    + exact Hnn.
    + lia.
    + lia.
Qed.

(** Reading the packed views gives back the argument bytes. *)
Lemma packed_views_bytes (bt bd bc : Z) :
  forall (args : ArgSlice) (pre : list Byte.byte),
    Forall nonneg args ->
    buffer_bytes {| str_this := bt; str_data := bd;
                    str_bytes := pre ++ concat (sv_bytes m <$> args);
                    str_capacity := bc |}
      <$> packed_views bd (Z.of_nat (length pre)) (sv_size <$> args) =
    sv_bytes m <$> args.
Proof.
  induction args as [|a args IH]; intros pre Hnn; [reflexivity|].
  apply Forall_cons in Hnn as [Ha Hnn].
  rewrite !fmap_cons. cbn [packed_views concat]. rewrite fmap_cons. f_equal.
  - unfold buffer_bytes; cbn [sv_data sv_size str_data str_bytes].
    replace (bd + Z.of_nat (length pre) - bd) with (Z.of_nat (length pre)) by lia.
    rewrite Nat2Z.id, drop_app_length.
    apply take_app_length'. rewrite length_sv_bytes. reflexivity.
  - specialize (IH (pre ++ sv_bytes m a) Hnn).
    rewrite length_app, Nat2Z.inj_add, length_sv_bytes, Z2Nat.id in IH by exact Ha.
    rewrite <- app_assoc in IH. exact IH.
Qed.

Lemma packed_views_within (s : std_string) :
  forall (szs : list Z) (off : Z),
    Forall (fun z => 0 <= z) szs ->
    0 <= off ->
    off + sum_Z szs <= string_size s ->
    Forall (within_buffer s) (packed_views (str_data s) off szs).
Proof.
  induction szs as [|sz szs IH]; intros off Hnn Hoff Hle; [constructor|].
  apply Forall_cons in Hnn as [Hsz Hnn].
  cbn [sum_Z foldr] in Hle. fold (sum_Z szs) in Hle.
  assert (Hsum : 0 <= sum_Z szs).
  { clear -Hnn. induction Hnn; cbn [sum_Z foldr]; [lia|]. fold (sum_Z l). lia. }
  cbn [packed_views]. constructor.
  - unfold within_buffer; cbn [sv_data sv_size]. lia.
  - apply IH; [exact Hnn | lia | lia].
Qed.

Lemma sizes_fit (args : ArgSlice) :
  platform_ok P ->
  Forall nonneg args ->
  sum_sizes args < 2 ^ 32 ->
  szf <$> args = sv_size <$> args.
Proof.
  intros HP Hnn. unfold sum_sizes.
  assert (Hpow : 2 ^ 32 <= 2 ^ size_bits P).
  { apply Z.pow_le_mono_r; [lia | apply (size_bits_range P HP)]. }
  induction Hnn as [|a args Ha Hnn IH]; intros Hlt; [reflexivity|].
  rewrite fmap_cons in Hlt. cbn [sum_Z foldr] in Hlt.
  fold (sum_Z (sv_size <$> args)) in Hlt.
  pose proof (sum_sizes_nonneg args Hnn) as Hs. unfold sum_sizes in Hs.
  rewrite !fmap_cons, IH by lia. rewrite wrap_small by lia. reflexivity.
Qed.

(** ArgList on what the constructor built, when the total length fits the
    32-bit offset. *)
Lemma ArgList_packed (E : Placement) (cid : Z) (args : ArgSlice)
    (scratch : list string_view) :
  platform_ok P ->
  Forall nonneg args ->
  Z.of_nat (length args) < 2 ^ 32 ->
  sum_sizes args < 2 ^ 32 ->
  ArgList {| cid_ := cid; args_ := Own (packed P m E args);
             reply_mode_ := ReplyMode_FULL |} scratch =
  Some (packed_views (str_data (buffer (packed P m E args))) 0 (sv_size <$> args),
        packed_views (str_data (buffer (packed P m E args))) 0 (sv_size <$> args)).
Proof.
  intros HP Hnn Hn Hsum. unfold ArgList; cbn [args_].
  assert (Helems : fa_elems (sizes (packed P m E args)) = sv_size <$> args).
  { unfold packed, own_of; cbn [sizes fa_elems]. apply sizes_fit; assumption. }
  rewrite Helems, length_fmap.
  rewrite (for_unsigned_fold_range _ _ (length args)) by lia.
  pose proof (ArgList_loop_spec (packed P m E args) (sv_size <$> args) [] 0 []
                (resize (length args) {| sv_data := 0; sv_size := 0 |} scratch))
    as Hloop.
  cbn [length app] in Hloop. change (Z.of_nat 0) with 0 in Hloop.
  rewrite length_fmap in Hloop. rewrite Hloop; [reflexivity | | | | | |].
  - exact Helems.
  - reflexivity.
  - rewrite length_resize. reflexivity.
  - apply Forall_fmap. exact Hnn.
  - lia.
  - exact Hsum.
Qed.

(** C3 (amended): for fewer than [2 ^ 32] arguments of less than [2 ^ 32]
    bytes in all, the owning constructor returns, [ArgList] on its result
    returns views with the bytes of the arguments, in order; the recorded
    lengths sum to the length of the buffer and every view lies within
    the buffer. *)
Theorem owned_round_trip (E : Placement) (cid : Z) (args : ArgSlice)
    (scratch : list string_view) :
  platform_ok P ->
  Forall nonneg args ->
  Z.of_nat (length args) < 2 ^ 32 ->
  sum_sizes args < 2 ^ 32 ->
  exists c s views,
    StoredCmd_new P E m cid true args = Some c /\
    cid_ c = cid /\
    args_ c = Own s /\
    ArgList c scratch = Some (views, views) /\
    view_bytes m c <$> views = sv_bytes m <$> args /\
    sum_Z (fa_elems (sizes s)) = string_size (buffer s) /\
    Forall (within_buffer (buffer s)) views.
Proof.
  intros HP Hnn Hn Hsum.
  pose proof (sizes_fit args HP Hnn Hsum) as Hfit.
  pose proof (length_concat_bytes args Hnn) as Hlen.
  eexists _, (packed P m E args), _.
  split; [apply StoredCmd_new_own; [assumption | assumption | lia]|].
  split; [reflexivity|]. split; [reflexivity|].
  split; [apply ArgList_packed; assumption|].
  split; [|split].
  - unfold view_bytes; cbn [args_]. unfold packed, own_of; cbn [buffer str_data].
    apply (packed_views_bytes _ _ _ args [] Hnn).
  - unfold packed, own_of, string_size; cbn [sizes buffer fa_elems str_bytes].
    rewrite Hfit, Hlen. reflexivity.
  - apply packed_views_within.
    + apply Forall_fmap. exact Hnn.
    + lia.
    + unfold packed, own_of, string_size; cbn [buffer str_bytes].
      rewrite Hlen. unfold sum_sizes. lia.
Qed.

(** C7: a command constructed in borrowed mode keeps the caller's slice;
    [ArgList] returns that slice, the same pointers and lengths, and leaves
    the scratch vector alone, so in every state of the caller's memory the
    returned views read what the caller's views read. *)
Theorem borrowed_ArgList_aliases (E : Placement) (cid : Z) (args : ArgSlice)
    (scratch : list string_view) :
  exists c,
    StoredCmd_new P E m cid false args = Some c /\
    args_ c = Borrowed args /\
    ArgList c scratch = Some (args, scratch) /\
    forall m' : memory, view_bytes m' c <$> args = sv_bytes m' <$> args.
Proof.
  eexists. split; [reflexivity|]. split; [reflexivity|].
  split; [reflexivity|]. intros m'. reflexivity.
Qed.

(** C6 (amended): [UsedMemory] is zero for a borrowed slice; for owned storage it is
    the capacity of the buffer plus the size of the lengths array, each
    counted only when its data lies outside the object; so for a command
    built by the owning constructor it is zero when the argument bytes fit
    the local buffer of the string and the lengths fit the inline array,
    and positive once the argument bytes exceed the local buffer. *)
Theorem UsedMemory_accounting (E : Placement) (cid : Z) (args : ArgSlice) :
  platform_ok P ->
  placement_ok P E ->
  Forall nonneg args ->
  Z.of_nat (length args) < 2 ^ 32 ->
  sum_sizes args < 2 ^ 63 ->
  (forall c sl, args_ c = Borrowed sl -> UsedMemory P c = 0) /\
  (forall c s, args_ c = Own s ->
     UsedMemory P c =
     usize ((if IsStoredInlined P (buffer s) then 0 else str_capacity (buffer s)) +
            (if IsStoredInlined P (sizes s) then 0 else memsize P (sizes s)))) /\
  exists c,
    StoredCmd_new P E m cid true args = Some c /\
    UsedMemory P c =
      (if sum_sizes args <=? sso_cap P then 0 else heap_cap P (sum_sizes args)) +
      (if Z.of_nat (length args) <=? sizes_inline P then 0
       else Z.of_nat (length args) * (size_bits P / 8)) /\
    (sum_sizes args <= sso_cap P ->
     Z.of_nat (length args) <= sizes_inline P -> UsedMemory P c = 0) /\
    (sso_cap P < sum_sizes args -> 0 < UsedMemory P c).
Proof.
  intros HP [HEb HEs] Hnn Hn Hsum.
  split; [intros c sl Hb; unfold UsedMemory; rewrite Hb; reflexivity|].
  split; [intros c s Ho; unfold UsedMemory; rewrite Ho; reflexivity|].
  eexists. split; [apply StoredCmd_new_own; [assumption | assumption | lia]|].
  pose proof (sso_off_range P HP) as Hso.
  pose proof (sizes_off_range P HP) as Hfo.
  pose proof (size_bits_range P HP) as Hsb.
  pose proof (heap_cap_range P HP (sum_sizes args) Hsum) as Hcap.
  unfold UsedMemory, IsStoredInlined, packed, own_of, memsize;
    cbn [args_ buffer sizes c_this c_sizeof c_data string_container
         sizes_container str_this str_data str_capacity fa_this fa_data fa_elems].
  rewrite length_fmap.
  pose proof (sso_cap_nonneg P HP) as Hsso.
  assert (Hdiv : 0 <= size_bits P / 8 <= 8).
  { split; [apply Z.div_pos; lia|]. apply Z.div_le_upper_bound; lia. }
  assert (Hms : 0 <= Z.of_nat (length args) * (size_bits P / 8) <= 2 ^ 32 * 8)
    by nia.
  assert (Hout : (buffer_at E <=? buffer_heap E) &&
                 (buffer_heap E <=? buffer_at E + sizeof_string P) = false).
  { apply andb_false_iff. destruct HEb; [left | right]; apply Z.leb_gt; lia. }
  assert (Hin : (buffer_at E <=? buffer_at E + sso_off P) &&
                (buffer_at E + sso_off P <=? buffer_at E + sizeof_string P) = true).
  { apply andb_true_intro. split; apply Z.leb_le; lia. }
  assert (Hsout : (sizes_at E <=? sizes_heap E) &&
                  (sizes_heap E <=? sizes_at E + sizeof_sizes P) = false).
  { apply andb_false_iff. destruct HEs; [left | right]; apply Z.leb_gt; lia. }
  assert (Hsin : (sizes_at E <=? sizes_at E + sizes_inline_off P) &&
                 (sizes_at E + sizes_inline_off P <=? sizes_at E + sizeof_sizes P)
                 = true).
  { apply andb_true_intro. split; apply Z.leb_le; lia. }
  assert (Hval :
    usize ((if (buffer_at E <=?
                (if sum_sizes args <=? sso_cap P then buffer_at E + sso_off P
                 else buffer_heap E)) &&
               ((if sum_sizes args <=? sso_cap P then buffer_at E + sso_off P
                 else buffer_heap E) <=? buffer_at E + sizeof_string P)
            then 0
            else if sum_sizes args <=? sso_cap P then sso_cap P
                 else heap_cap P (sum_sizes args)) +
           (if (sizes_at E <=?
                (if Z.of_nat (length args) <=? sizes_inline P
                 then sizes_at E + sizes_inline_off P else sizes_heap E)) &&
               ((if Z.of_nat (length args) <=? sizes_inline P
                 then sizes_at E + sizes_inline_off P else sizes_heap E) <=?
                sizes_at E + sizeof_sizes P)
            then 0 else Z.of_nat (length args) * (size_bits P / 8))) =
    (if sum_sizes args <=? sso_cap P then 0 else heap_cap P (sum_sizes args)) +
    (if Z.of_nat (length args) <=? sizes_inline P then 0
     else Z.of_nat (length args) * (size_bits P / 8))).
  { destruct (sum_sizes args <=? sso_cap P) eqn:Hb,
             (Z.of_nat (length args) <=? sizes_inline P) eqn:Hs;
      rewrite ?Hin, ?Hout, ?Hsin, ?Hsout;
      unfold usize; apply wrap_small; lia. }
  rewrite Hval. split; [reflexivity|]. split.
  - intros Hfit Hcount.
    rewrite (proj2 (Z.leb_le _ _) Hfit), (proj2 (Z.leb_le _ _) Hcount).
    reflexivity.
  - intros Hbig.
    rewrite (proj2 (Z.leb_gt (sum_sizes args) (sso_cap P)) Hbig).
    destruct (Z.of_nat (length args) <=? sizes_inline P); lia.
Qed.

End StoredCmd.

Lemma placement0_ok : placement_ok lp64 placement0.
Proof. split; right; simpl; lia. Qed.

Lemma owned_round_trip_witness :
  exists c s views,
    StoredCmd_new lp64 placement0 xy_memory 7 true small_args = Some c /\
    cid_ c = 7 /\
    args_ c = Own s /\
    ArgList c [] = Some (views, views) /\
    view_bytes xy_memory c <$> views = sv_bytes xy_memory <$> small_args /\
    sum_Z (fa_elems (sizes s)) = string_size (buffer s) /\
    Forall (within_buffer (buffer s)) views.
Proof.
  apply (owned_round_trip lp64 xy_memory placement0 7 small_args []).
  - exact lp64_ok.
  - repeat constructor; simpl; lia.
  - simpl; lia.
  - vm_compute; reflexivity.
Defined.

(** C3, the claim as stated fails: with [2 ^ 32 + 1] argument bytes the
    32-bit offset of [ArgList] wraps to zero, and the third view, which
    should read y, reads the first byte of the buffer, x. *)
Lemma huge_arguments_misread :
  exists c views,
    StoredCmd_new lp64 placement0 xy_memory 7 true huge_args = Some c /\
    ArgList c [] = Some (views, views) /\
    (view_bytes xy_memory c <$> views) !! 2%nat = Some [Byte.x78] /\
    (sv_bytes xy_memory <$> huge_args) !! 2%nat = Some [Byte.x79].
Proof.
  exists {| cid_ := 7; args_ := Own (packed lp64 xy_memory placement0 huge_args);
            reply_mode_ := ReplyMode_FULL |},
         [ {| sv_data := 5000; sv_size := 2 ^ 32 - 1 |};
           {| sv_data := 5000 + (2 ^ 32 - 1); sv_size := 1 |};
           {| sv_data := 5000; sv_size := 1 |} ].
  assert (Hhead : exists rest,
            concat (sv_bytes xy_memory <$> huge_args) = Byte.x78 :: rest).
  { unfold huge_args. rewrite fmap_cons. cbn [concat].
    rewrite (sv_bytes_cons xy_memory) by (cbn [sv_size]; lia).
    eexists. cbn [app sv_data]. reflexivity. }
  destruct Hhead as [rest Hhead].
  split; [|split; [|split]].
  - apply StoredCmd_new_own.
    + repeat constructor; cbn [sv_size]; lia.
    + simpl; lia.
    + unfold sum_sizes, huge_args. cbn [fmap list_fmap sv_size sum_Z foldr]. lia.
  - unfold ArgList, packed, own_of. cbn [args_ sizes buffer fa_elems str_data].
    rewrite Hhead. vm_compute. reflexivity.
  - unfold view_bytes, packed, own_of, buffer_bytes.
    cbn [args_ buffer str_bytes str_data fmap list_fmap lookup list_lookup
         sv_data sv_size].
    rewrite Hhead. reflexivity.
  - unfold huge_args. cbn [fmap list_fmap lookup list_lookup].
    vm_compute. reflexivity.
Qed.

Lemma UsedMemory_accounting_witness :
  (exists c,
     StoredCmd_new lp64 placement0 xy_memory 7 true small_args = Some c /\
     UsedMemory lp64 c = 0) /\
  (exists c,
     StoredCmd_new lp64 placement0 xy_memory 7 true long_args = Some c /\
     0 < UsedMemory lp64 c).
Proof.
  split.
  - destruct (UsedMemory_accounting lp64 xy_memory placement0 7 small_args)
      as (_ & _ & c & Hc & _ & Hzero & _).
    + exact lp64_ok.
    + exact placement0_ok.
    + repeat constructor; simpl; lia.
    + simpl; lia.
    + vm_compute; reflexivity.
    + exists c. split; [exact Hc|]. apply Hzero; vm_compute; discriminate.
  - destruct (UsedMemory_accounting lp64 xy_memory placement0 7 long_args)
      as (_ & _ & c & Hc & _ & _ & Hpos).
    + exact lp64_ok.
    + exact placement0_ok.
    + repeat constructor; simpl; lia.
    + simpl; lia.
    + vm_compute; reflexivity.
    + exists c. split; [exact Hc|]. apply Hpos; vm_compute; reflexivity.
Defined.

(** The model at work on small inputs: the three arguments xx, the empty
    string and y are packed into the local buffer of the string (at
    [1000 + 16]) and read back. *)
Example small_args_views :
  (c ← StoredCmd_new lp64 placement0 xy_memory 7 true small_args;
   ArgList c []) =
  Some ([ {| sv_data := 1016; sv_size := 2 |};
          {| sv_data := 1018; sv_size := 0 |};
          {| sv_data := 1018; sv_size := 1 |} ],
        [ {| sv_data := 1016; sv_size := 2 |};
          {| sv_data := 1018; sv_size := 0 |};
          {| sv_data := 1018; sv_size := 1 |} ]).
Proof. vm_compute. reflexivity. Qed.

Example small_args_bytes :
  match StoredCmd_new lp64 placement0 xy_memory 7 true small_args with
  | Some c =>
      match ArgList c [] with
      | Some (views, _) => Some (view_bytes xy_memory c <$> views)
      | None => None
      end
  | None => None
  end = Some [[Byte.x78; Byte.x78]; []; [Byte.x79]].
Proof. vm_compute. reflexivity. Qed.

(** Sixteen bytes do not fit the local buffer: the capacity of the heap
    block is counted. *)
Example long_args_memory :
  UsedMemory lp64 <$> StoredCmd_new lp64 placement0 xy_memory 7 true long_args =
  Some 30.
Proof. vm_compute. reflexivity. Qed.

(** The lengths have an inline store of their own: five empty arguments
    have no bytes, and their five lengths are on the heap. *)
Example five_empty_args_memory :
  UsedMemory lp64 <$>
    StoredCmd_new lp64 placement0 xy_memory 7 true
      (replicate 5 {| sv_data := 0; sv_size := 0 |}) =
  Some 20.
Proof. vm_compute. reflexivity. Qed.

(** C6, the claim as stated fails: the bytes of the arguments alone do not
    decide the result.  Five empty arguments have no bytes at all, which
    fit the local buffer of the string, and yet their five lengths are kept
    on the heap and counted: the result is 20.  And a command that adopted
    a buffer of three bytes allocated on the heap, with three lengths kept
    inline, counts the capacity of that buffer: the result is 30. *)
Lemma UsedMemory_bytes_within_threshold_positive :
  sum_sizes (replicate 5 {| sv_data := 0; sv_size := 0 |}) = 0 /\
  sum_sizes (replicate 5 {| sv_data := 0; sv_size := 0 |}) <= sso_cap lp64 /\
  (UsedMemory lp64 <$>
     StoredCmd_new lp64 placement0 xy_memory 7 true
       (replicate 5 {| sv_data := 0; sv_size := 0 |})) = Some 20 /\
  sum_sizes heap_buffer_args = string_size heap_buffer /\
  string_size heap_buffer <= sso_cap lp64 /\
  (UsedMemory lp64 <$>
     StoredCmd_adopt lp64 placement0 heap_buffer 7 heap_buffer_args
       ReplyMode_FULL) = Some 30.
Proof.
  split; [vm_compute; reflexivity|].
  split; [vm_compute; discriminate|].
  split; [vm_compute; reflexivity|].
  split; [vm_compute; reflexivity|].
  split; [vm_compute; discriminate|].
  vm_compute. reflexivity.
Qed.

(** ** The squashing constructor *)

Section Squashing.

Context {AclKeys AclPubSub : Type}.
Variable NumberOfFamilies : nat.
Variable NONE_COMMANDS : Z.
Implicit Types (h : gmap Z (@ConnectionContext AclKeys AclPubSub)).

(** C8: constructing a squashed child at a new address leaves the parent
    as it was; the child holds the parent's ACL bitmap, key patterns,
    pub/sub patterns, skip-validation flag, database index and namespace,
    and no connection; writing the ACL bitmap of either afterwards does
    not change the other. *)
Theorem squashed_child_isolated blank h (this p : Z) (tx : option Z) parent :
  h !! p = Some parent ->
  this <> p ->
  exists child,
    ConnectionContext_squashed NumberOfFamilies NONE_COMMANDS blank h this
      (Some p) tx = Some (<[this := child]> h) /\
    <[this := child]> h !! p = Some parent /\
    acl_commands child = acl_commands parent /\
    keys child = keys parent /\
    pub_sub child = pub_sub parent /\
    skip_acl_validation child = skip_acl_validation parent /\
    acl_db_idx child = acl_db_idx parent /\
    ns child = ns parent /\
    conn child = None /\
    transaction child = tx /\
    (forall i x,
       write_acl this i x (<[this := child]> h) !! p = Some parent /\
       acl_commands <$> write_acl this i x (<[this := child]> h) !! this =
         Some (<[i := x]> (acl_commands parent))) /\
    (forall i x,
       write_acl p i x (<[this := child]> h) !! this = Some child /\
       acl_commands <$> write_acl p i x (<[this := child]> h) !! p =
         Some (<[i := x]> (acl_commands parent))).
Proof.
  intros Hp Hne. unfold ConnectionContext_squashed. rewrite Hp.
  destruct tx as [t|]; cbn [conn acl_commands keys pub_sub skip_acl_validation
    acl_db_idx ns transaction subscriptions has_main_or_memcache_listener
    conn_state];
    (eexists; split; [reflexivity|]);
    cbn [conn acl_commands keys pub_sub skip_acl_validation acl_db_idx ns
         transaction];
    (split; [rewrite lookup_insert_ne by exact Hne; exact Hp|]);
    repeat (split; [reflexivity|]);
    unfold write_acl; split; intros i x; split.
  all: try (rewrite lookup_alter_ne by congruence;
            rewrite ?lookup_insert_ne by congruence;
            rewrite ?lookup_insert_eq; first [exact Hp | reflexivity]).
  all: rewrite lookup_alter_eq, ?lookup_insert_eq,
         ?lookup_insert_ne, ?Hp by congruence; reflexivity.
Qed.

End Squashing.

Lemma squashed_child_isolated_witness :
  exists child,
    ConnectionContext_squashed 2 0 fresh_context {[ 100 := context_ab ]} 200
      (Some 100) (Some 7) = Some (<[200 := child]> {[ 100 := context_ab ]}) /\
    acl_commands child = acl_commands context_ab /\
    conn child = None /\
    write_acl 200 0 5 (<[200 := child]> {[ 100 := context_ab ]}) !! 100 =
      Some context_ab.
Proof.
  destruct (squashed_child_isolated 2 0 fresh_context {[ 100 := context_ab ]}
              200 100 (Some 7) context_ab) as (child & H1 & _ & H3 & H); 
    [reflexivity | lia |].
  exists child. split; [exact H1|]. split; [exact H3|].
  destruct H as (_ & _ & _ & _ & _ & Hc & _ & Hw & _).
  split; [exact Hc|]. apply (Hw 0%nat 5).
Defined.

(** ** Subscriptions *)

Section Subscriptions.

Context {AclKeys AclPubSub : Type}.
Implicit Types (cx : @ConnectionContext AclKeys AclPubSub).
Implicit Types (P : Platform) (tid : Z) (rb : RedisReplyBuilder).

Lemma send_response_frame action topic count rb :
  SendSubscriptionChangedResponse action topic count rb =
  rb ++ push_frame action topic count.
Proof.
  unfold SendSubscriptionChangedResponse, push_frame.
  destruct topic; rewrite <- !app_assoc; reflexivity.
Qed.

Lemma set_subscribe_info_id cx :
  set_subscribe_info (subscribe_info (conn_state cx)) (subscriptions cx) cx = cx.
Proof. destruct cx as [? ? ? ? ? ? ? ? ? ? []]; reflexivity. Qed.

(** C9: removing on a connection that has no Subscribe Info changes
    nothing and records nothing; the result is one zero for each channel
    argument when a reply is requested and empty otherwise. *)
Theorem ChangeSubscriptions_remove_absent P tid cx (chs : list string)
    (pattern to_reply : bool) :
  subscribe_info (conn_state cx) = None ->
  ChangeSubscriptions P tid cx chs pattern false to_reply =
    (replicate (if to_reply then length chs else 0%nat) 0, cx, []).
Proof.
  intros Hnone. unfold ChangeSubscriptions. rewrite Hnone. reflexivity.
Qed.

(** C10: with a reply requested and no channel argument,
    [ChangePSubscription] sends the one frame [[action, null, 0]] and opens
    no reply scope; [ChangeSubscription] opens and closes a reply scope and
    sends no frame. *)
Theorem empty_args_reply P tid cx (to_add : bool) rb :
  (ChangePSubscription P tid cx to_add true [] rb).1.2 =
    rb ++ push_frame (if to_add then "psubscribe" else "punsubscribe") None 0 /\
  (ChangeSubscription P tid cx to_add true [] rb).1.2 =
    rb ++ [ReplyScopeBegin; ReplyScopeEnd] /\
  frame_calls (ChangeSubscription P tid cx to_add true [] rb).1.2 =
    frame_calls rb.
Proof.
  assert (Hres : (ChangeSubscriptions P tid cx [] false to_add true).1.1 = [] /\
                 (ChangeSubscriptions P tid cx [] true to_add true).1.1 = []).
  { unfold ChangeSubscriptions; simpl.
    destruct to_add, (subscribe_info (conn_state cx)); simpl;
      repeat match goal with |- context [if ?b then _ else _] => destruct b end;
      split; reflexivity. }
  destruct Hres as [Hc Hp].
  unfold ChangePSubscription, ChangeSubscription.
  destruct (ChangeSubscriptions P tid cx [] true to_add true) as [[rp cxp] ep].
  destruct (ChangeSubscriptions P tid cx [] false to_add true) as [[rc cxc] ec].
  simpl in Hc, Hp; subst rc rp; simpl.
  rewrite send_response_frame. unfold action_name, send_results; simpl.
  split; [reflexivity|]. rewrite <- app_assoc; simpl. split; [reflexivity|].
  unfold frame_calls. rewrite filter_app. simpl.
  rewrite !filter_cons_False by (simpl; congruence).
  rewrite filter_nil. apply app_nil_r.
Qed.

(** C2 (amended): on a connection with no Subscribe Info, [UnsubscribeAll]
    and [PUnsubscribeAll] with a reply requested send exactly one frame
    [[action, null, 0]], leave the context as it is, create no Subscribe
    Info and touch no routing. *)
Theorem UnsubscribeAll_absent_reply P tid cx rb :
  subscribe_info (conn_state cx) = None ->
  UnsubscribeAll P tid cx true rb =
    Some (cx, rb ++ push_frame "unsubscribe" None 0, []) /\
  PUnsubscribeAll P tid cx true rb =
    Some (cx, rb ++ push_frame "punsubscribe" None 0, []).
Proof.
  intros Hnone. unfold UnsubscribeAll, PUnsubscribeAll.
  rewrite Hnone; simpl. rewrite !send_response_frame. split; reflexivity.
Qed.

(** C1 (amended): on a connection subscribed to the exact channels a and
    b, adding b and c with a reply requested leaves the channels a, b and
    c, records only c with the updater, and reports the running counts 2
    and 3: the count after each element, of which only the last is the
    total after the call. *)
Theorem subscribe_ab_then_bc P tid cx (subs : Z) :
  ChangeSubscriptions P tid
    (set_subscribe_info (Some {| channels := {["a"; "b"]}; patterns := ∅ |})
       subs cx)
    ["b"; "c"] false true true =
  ([2; 3],
   set_subscribe_info (Some {| channels := {["a"; "b"; "c"]}; patterns := ∅ |})
     subs cx,
   [Applied {| csu_pattern := false; csu_to_add := true; csu_tid := u32 tid;
               csu_ops := ["c"] |}]).
Proof.
  unfold ChangeSubscriptions; simpl.
  unfold set_subscribe_info; simpl.
  repeat f_equal.
Qed.

(** *** The loop of [ChangeSubscriptions] *)

Lemma local_store_set pattern s si :
  local_store pattern (set_local_store pattern s si) = s.
Proof. destruct pattern; reflexivity. Qed.

Lemma other_store_set pattern s si :
  local_store (negb pattern) (set_local_store pattern s si) =
  local_store (negb pattern) si.
Proof. destruct pattern; reflexivity. Qed.

Lemma set_local_store_twice pattern s s' si :
  set_local_store pattern s (set_local_store pattern s' si) =
  set_local_store pattern s si.
Proof. destruct pattern; reflexivity. Qed.

Lemma set_local_store_id pattern si :
  set_local_store pattern (local_store pattern si) si = si.
Proof. destruct pattern, si; reflexivity. Qed.

Lemma change_one_info pattern to_add to_reply si csu res i ch :
  (change_one pattern to_add to_reply (si, csu, res, i) ch).1.1.1 =
  set_local_store pattern
    (if to_add then local_store pattern si ∪ {[ch]}
     else local_store pattern si ∖ {[ch]}) si.
Proof.
  unfold change_one, emplace, erase.
  destruct to_add, to_reply; reflexivity.
Qed.

(** After the loop the local set is the old one with all the channels
    added, or with all of them removed; the other set is as it was. *)
Lemma fold_change_info pattern to_add to_reply chs st :
  (foldl (change_one pattern to_add to_reply) st chs).1.1.1 =
  set_local_store pattern
    (if to_add then local_store pattern st.1.1.1 ∪ list_to_set chs
     else local_store pattern st.1.1.1 ∖ list_to_set chs) st.1.1.1.
Proof.
  revert st. induction chs as [|ch chs IH]; intros [[[si csu] res] i];
    cbn [foldl fst list_to_set].
  - destruct to_add.
    + rewrite (right_id_L ∅ (∪)). symmetry. apply set_local_store_id.
    + rewrite difference_empty_L. symmetry. apply set_local_store_id.
  - rewrite IH, change_one_info, local_store_set, set_local_store_twice.
    f_equal. destruct to_add; set_solver.
Qed.

Lemma IsEmpty_spec si :
  IsEmpty si = true <-> channels si = ∅ /\ patterns si = ∅.
Proof.
  unfold IsEmpty. rewrite andb_true_iff, !bool_decide_eq_true. reflexivity.
Qed.

Lemma IsEmpty_stores pattern si :
  IsEmpty si = true <->
  local_store pattern si = ∅ /\ local_store (negb pattern) si = ∅.
Proof. rewrite IsEmpty_spec. destruct pattern; simpl; tauto. Qed.

Lemma not_IsEmpty si :
  IsEmpty si = false -> channels si <> ∅ \/ patterns si <> ∅.
Proof.
  unfold IsEmpty. rewrite andb_false_iff, !bool_decide_eq_false. tauto.
Qed.

Lemma ChangeSubscriptions_effects P tid cx chs pattern to_add to_reply :
  effects_in_order (ChangeSubscriptions P tid cx chs pattern to_add to_reply).2.
Proof.
  unfold ChangeSubscriptions, effects_in_order.
  destruct (subscribe_info (conn_state cx)) as [si|], to_add; simpl;
    try (left; reflexivity);
    match goal with |- context [foldl ?f ?a ?l] =>
      destruct (foldl f a l) as [[[si' csu'] res'] i'] end; simpl;
    try destruct (IsEmpty si'); simpl; right; exists csu'; auto.
Qed.

(** C4 (amended): after [Unsubscribe], and after [ChangeSubscriptions]
    that removes or that adds at least one channel, the Subscribe Info is
    present only with a non-empty set; removing the last subscription
    resets the record and takes exactly one from the counter, which the
    code expects to be at least one; and [ChangeSubscriptions] resets the
    record only after the one [Apply] of the call. *)
Theorem subscribe_info_lifecycle P tid cx (chs : list string) (ch : string)
    (pattern to_add to_reply : bool) :
  ((to_add = true -> chs <> []) ->
   info_invariant (ChangeSubscriptions P tid cx chs pattern to_add to_reply).1.2) /\
  (forall si, subscribe_info (conn_state cx) = Some si ->
     exists cx' eff, Unsubscribe P cx ch = Some (cx', eff) /\ info_invariant cx') /\
  (forall si, subscribe_info (conn_state cx) = Some si ->
     local_store pattern si ⊆ list_to_set chs ->
     local_store (negb pattern) si = ∅ ->
     1 <= subscriptions cx < 2 ^ subs_bits P ->
     exists csu,
       (ChangeSubscriptions P tid cx chs pattern false to_reply).1.2 =
         set_subscribe_info None (subscriptions cx - 1) cx /\
       (ChangeSubscriptions P tid cx chs pattern false to_reply).2 =
         [Applied csu; InfoReset]) /\
  (forall si, subscribe_info (conn_state cx) = Some si ->
     channels si ⊆ {[ch]} -> patterns si = ∅ ->
     1 <= subscriptions cx < 2 ^ subs_bits P ->
     Unsubscribe P cx ch =
       Some (set_subscribe_info None (subscriptions cx - 1) cx, [InfoReset])) /\
  effects_in_order (ChangeSubscriptions P tid cx chs pattern to_add to_reply).2.
Proof.
  repeat split.
  - (* the invariant after ChangeSubscriptions *)
    intros Hne. unfold ChangeSubscriptions, info_invariant.
    destruct (subscribe_info (conn_state cx)) as [si|] eqn:Hsi, to_add; simpl;
      try (rewrite Hsi; exact I);
      match goal with |- context [foldl (change_one _ ?ta _) ?a ?l] =>
        pose proof (fold_change_info pattern ta to_reply l a) as Hfold;
        destruct (foldl (change_one pattern ta to_reply) a l)
          as [[[si' csu'] res'] i'] end;
      simpl in Hfold; simpl.
    + assert (Hin : exists c, c ∈ local_store pattern si').
      { destruct chs as [|c chs]; [destruct Hne; reflexivity|].
        exists c. rewrite Hfold, local_store_set. set_solver. }
      destruct Hin as [c Hc]. destruct pattern; simpl in Hc; set_solver.
    + destruct (IsEmpty si') eqn:He; simpl; [exact I|]. apply not_IsEmpty in He; exact He.
    + assert (Hin : exists c, c ∈ local_store pattern si').
      { destruct chs as [|c chs]; [destruct Hne; reflexivity|].
        exists c. rewrite Hfold, local_store_set. set_solver. }
      destruct Hin as [c Hc]. destruct pattern; simpl in Hc; set_solver.
  - (* the invariant after Unsubscribe *)
    intros si Hsi. unfold Unsubscribe. rewrite Hsi; simpl.
    match goal with |- context [IsEmpty ?s] => destruct (IsEmpty s) eqn:He end.
    + eexists _, _. split; [reflexivity|]. exact I.
    + eexists _, _. split; [reflexivity|]. unfold info_invariant; simpl.
      apply not_IsEmpty in He; exact He.
  - (* removing the last subscription with ChangeSubscriptions *)
    intros si Hsi Hsub Hother Hsubs.
    unfold ChangeSubscriptions. rewrite Hsi; simpl.
    match goal with |- context [foldl ?f ?a ?l] =>
      pose proof (fold_change_info pattern false to_reply l a) as Hfold;
      destruct (foldl f a l) as [[[si' csu'] res'] i'] end.
    simpl in Hfold.
    assert (He : IsEmpty si' = true).
    { apply (IsEmpty_stores pattern). rewrite Hfold, local_store_set, other_store_set.
      split; [set_solver | exact Hother]. }
    rewrite He; simpl. exists csu'.
    rewrite wrap_small by lia. split; reflexivity.
  - (* removing the last subscription with Unsubscribe *)
    intros si Hsi Hsub Hpat Hsubs. unfold Unsubscribe. rewrite Hsi; simpl.
    match goal with |- context [IsEmpty ?s] =>
      assert (He : IsEmpty s = true) end.
    { apply IsEmpty_spec; simpl. split; [set_solver | exact Hpat]. }
    rewrite He, wrap_small by lia. reflexivity.
  - apply ChangeSubscriptions_effects.
Qed.

End Subscriptions.

(** C1, the claim as stated fails: the count reported for b in the second
    call is 2, not the total 3. *)
Lemma subscribe_counts_not_total :
  (ChangeSubscriptions lp64 0 context_ab ["b"; "c"] false true true).1.1 = [2; 3] /\
  (ChangeSubscriptions lp64 0 context_ab ["b"; "c"] false true true).1.1 !! 0%nat
    <> Some 3.
Proof. split; [vm_compute; reflexivity | vm_compute; congruence]. Qed.

(** C2, the claim as stated fails: without a reply requested the call reads
    the channels of the absent record, which is undefined. *)
Lemma UnsubscribeAll_absent_no_reply :
  UnsubscribeAll lp64 0 fresh_context false [] = None /\
  PUnsubscribeAll lp64 0 fresh_context false [] = None.
Proof. split; reflexivity. Qed.

Lemma UnsubscribeAll_absent_reply_witness :
  UnsubscribeAll lp64 0 fresh_context true [] =
    Some (fresh_context, [] ++ push_frame "unsubscribe" None 0, []) /\
  PUnsubscribeAll lp64 0 fresh_context true [] =
    Some (fresh_context, [] ++ push_frame "punsubscribe" None 0, []).
Proof. apply (UnsubscribeAll_absent_reply lp64 0 fresh_context []); reflexivity. Defined.

Lemma ChangeSubscriptions_remove_absent_witness :
  ChangeSubscriptions lp64 0 fresh_context ["a"; "b"] true false true =
    (replicate 2 0, fresh_context, []).
Proof.
  apply (ChangeSubscriptions_remove_absent lp64 0 fresh_context ["a"; "b"] true true).
  reflexivity.
Defined.

(** C4, the claim as stated fails: adding an empty list of channels on a
    connection with no Subscribe Info creates the record and leaves it with
    two empty sets. *)
Lemma subscribe_nothing_leaves_empty_info :
  subscribe_info (conn_state
    (ChangeSubscriptions lp64 0 fresh_context [] false true false).1.2) =
    Some {| channels := ∅; patterns := ∅ |} /\
  subscriptions (ChangeSubscriptions lp64 0 fresh_context [] false true false).1.2 = 1.
Proof. split; reflexivity. Qed.

Lemma subscribe_info_lifecycle_witness :
  info_invariant (ChangeSubscriptions lp64 0 fresh_context ["a"] false true true).1.2 /\
  (exists csu,
     (ChangeSubscriptions lp64 0 context_ab ["b"; "a"] false false true).1.2 =
       set_subscribe_info None (1 - 1) context_ab /\
     (ChangeSubscriptions lp64 0 context_ab ["b"; "a"] false false true).2 =
       [Applied csu; InfoReset]).
Proof.
  split.
  - apply (subscribe_info_lifecycle lp64 0 fresh_context ["a"] "a" false true true).
    intros _; discriminate.
  - apply (subscribe_info_lifecycle lp64 0 context_ab ["b"; "a"] "a" false false true)
      with (si := {| channels := {["a"; "b"]}; patterns := ∅ |}).
    + reflexivity.
    + apply (bool_decide_unpack _). vm_compute. exact I.
    + reflexivity.
    + simpl. lia.
Defined.

(** ** Client tracking *)

(** C5: [ShouldTrackKeys] depends on the tracking state only; it is false
    when tracking is off or no-loop is set, true in mode NONE, and otherwise
    true exactly when (OPTIN) the sequence number is, or (OPTOUT) is not, the
    caching sequence number plus one, the sum taken in the counter's type. *)
Theorem ShouldTrackKeys_table (P : Platform) (ct : ClientTracking) :
  (IsTrackingOn ct = false \/ noloop_ ct = true -> ShouldTrackKeys P ct = false) /\
  (IsTrackingOn ct = true -> noloop_ ct = false ->
     (option_ ct = NONE -> ShouldTrackKeys P ct = true) /\
     (option_ ct = OPTIN ->
        (ShouldTrackKeys P ct = true <->
         seq_num_ ct = wrap (seq_bits P) (caching_seq_num_ ct + 1))) /\
     (option_ ct = OPTOUT ->
        (ShouldTrackKeys P ct = true <->
         seq_num_ ct <> wrap (seq_bits P) (caching_seq_num_ ct + 1)))) /\
  (caching_seq_num_ ct + 1 < 2 ^ seq_bits P -> 0 <= caching_seq_num_ ct ->
     wrap (seq_bits P) (caching_seq_num_ ct + 1) = caching_seq_num_ ct + 1).
Proof.
  unfold ShouldTrackKeys, IsTrackingOn.
  destruct ct as [en nl opt s c]; simpl.
  replace (1 + c) with (c + 1) by lia.
  split; [|split].
  - intros [-> | ->]; [reflexivity | destruct en; reflexivity].
  - intros -> ->; simpl. repeat split.
    + intros ->; reflexivity.
    + subst opt; simpl; apply Z.eqb_eq.
    + subst opt; simpl. intros H; apply Z.eqb_eq; assumption.
    + subst opt; simpl. rewrite Bool.negb_true_iff. apply Z.eqb_neq.
    + subst opt; simpl. rewrite Bool.negb_true_iff. apply Z.eqb_neq.
  - intros Hlt Hge. unfold wrap. apply Z.mod_small. lia.
Qed.

Lemma ShouldTrackKeys_table_witness :
  ShouldTrackKeys lp64
    {| tracking_enabled_ := false; noloop_ := false; option_ := NONE;
       seq_num_ := 5; caching_seq_num_ := 4 |} = false /\
  ShouldTrackKeys lp64
    {| tracking_enabled_ := true; noloop_ := false; option_ := NONE;
       seq_num_ := 5; caching_seq_num_ := 9 |} = true.
Proof.
  split.
  - apply (ShouldTrackKeys_table lp64). left. reflexivity.
  - pose proof (proj1 (proj2 (ShouldTrackKeys_table lp64
             {| tracking_enabled_ := true; noloop_ := false; option_ := NONE;
                seq_num_ := 5; caching_seq_num_ := 9 |}))) as H.
    destruct (H eq_refl eq_refl) as [Hnone _]. exact (Hnone eq_refl).
Defined.

(** * Further properties *)

(** ** StoredCmd: views, first argument and the adopting constructor *)

Section MoreStoredCmd.

Variable P : Platform.
Variable m : memory.

Local Abbreviation nonneg := (fun a : string_view => 0 <= sv_size a).
Local Abbreviation szf := (fun a : string_view => wrap (size_bits P) (sv_size a)).

Lemma ArgList_loop_wrapped (s : OwnStorage) :
  forall (rest done : list Z) (off : Z) (sdone srest : list string_view),
    fa_elems (sizes s) = done ++ rest ->
    length sdone = length done ->
    length srest = length rest ->
    fold_range (ArgList_step s) (Z.of_nat (length done)) (length rest)
      (off, sdone ++ srest) =
    Some (foldl (fun o sz => u32 (o + sz)) off rest,
          sdone ++ wrapped_views (str_data (buffer s)) off rest).
Proof.
  induction rest as [|sz rest IH]; intros done off sdone srest Helems Hsd Hsr.
  - destruct srest; [|discriminate]. reflexivity.
  - destruct srest as [|v srest]; [discriminate|].
    cbn [length fold_range]. unfold ArgList_step at 1.
    rewrite Nat2Z.id, Helems, list_lookup_middle by reflexivity.
    rewrite <- Hsd, <- (Nat.add_0_r (length sdone)), insert_app_r.
    cbn [insert list_insert]. rewrite Nat.add_0_r, Hsd.
    replace (Z.of_nat (length done) + 1) with (Z.of_nat (length (done ++ [sz])))
      by (rewrite length_app; simpl; lia).
    rewrite (cons_middle _ sdone), app_assoc.
    rewrite (IH (done ++ [sz]) (u32 (off + sz))).
    + cbn [wrapped_views foldl]. rewrite <- app_assoc. reflexivity.
    + rewrite <- app_assoc. exact Helems.
    + rewrite !length_app, Hsd. reflexivity.
    + simpl in Hsr. lia.
Qed.

Lemma wrapped_views_sizes (base : Z) :
  forall (szs : list Z) (off : Z), sv_size <$> wrapped_views base off szs = szs.
Proof.
  induction szs as [|sz szs IH]; intros off; [reflexivity|].
  cbn [wrapped_views]. rewrite fmap_cons, IH. reflexivity.
Qed.


(** ArgList on owned storage with fewer than [2 ^ 32] lengths. *)
Lemma ArgList_own (c : StoredCmd) (s : OwnStorage) (scratch : list string_view) :
  args_ c = Own s ->
  Z.of_nat (length (fa_elems (sizes s))) < 2 ^ 32 ->
  ArgList c scratch =
  Some (wrapped_views (str_data (buffer s)) 0 (fa_elems (sizes s)),
        wrapped_views (str_data (buffer s)) 0 (fa_elems (sizes s))).
Proof.
  intros Hown Hn. unfold ArgList. rewrite Hown.
  rewrite (for_unsigned_fold_range _ _ (length (fa_elems (sizes s)))) by lia.
  pose proof (ArgList_loop_wrapped s (fa_elems (sizes s)) [] 0 []
                (resize (length (fa_elems (sizes s)))
                   {| sv_data := 0; sv_size := 0 |} scratch)
                eq_refl eq_refl) as Hloop.
  cbn [length app] in Hloop. change (Z.of_nat 0) with 0 in Hloop.
  rewrite Hloop by (rewrite length_resize; reflexivity). reflexivity.
Qed.

(** With [2 ^ 32] lengths or more the loop of [ArgList] does not end. *)
Lemma ArgList_own_no_exit (c : StoredCmd) (s : OwnStorage)
    (scratch : list string_view) :
  args_ c = Own s ->
  2 ^ 32 <= Z.of_nat (length (fa_elems (sizes s))) ->
  ArgList c scratch = None.
Proof.
  intros Hown Hn. unfold ArgList. rewrite Hown.
  rewrite for_unsigned_no_exit by lia. reflexivity.
Qed.

(** X1: on owned storage with fewer than [2 ^ 32] recorded lengths, ArgList
    returns the same views whatever the scratch vector held before: one
    view for each recorded length, with that length, the first one at the
    start of the buffer. *)
Theorem ArgList_ignores_scratch (c : StoredCmd) (s : OwnStorage) :
  args_ c = Own s ->
  Z.of_nat (length (fa_elems (sizes s))) < 2 ^ 32 ->
  exists views,
    (forall scratch, ArgList c scratch = Some (views, views)) /\
    sv_size <$> views = fa_elems (sizes s) /\
    (forall v, views !! 0%nat = Some v -> sv_data v = str_data (buffer s)).
Proof.
  intros Hown Hn.
  exists (wrapped_views (str_data (buffer s)) 0 (fa_elems (sizes s))).
  split; [intros scratch; apply ArgList_own; assumption|].
  split; [apply wrapped_views_sizes|].
  intros v. destruct (fa_elems (sizes s)) as [|sz szs]; [discriminate|].
  cbn [wrapped_views lookup list_lookup]. intros [= <-]. cbn [sv_data]. lia.
Qed.

(** X2: when the first view that [ArgList] returns lies within the buffer
    of an owned command (its recorded length does not run past the bytes
    that the buffer holds), [FirstArg] is the bytes of that view; for a
    borrowed slice it is the bytes of the first view as they are; and it is
    empty when [ArgList] returns no view. *)
Theorem FirstArg_first_view (c : StoredCmd) (scratch : list string_view)
    (views scratch' : list string_view) :
  ArgList c scratch = Some (views, scratch') ->
  (forall s v, args_ c = Own s -> views !! 0%nat = Some v ->
     within_buffer (buffer s) v) ->
  FirstArg m c = default [] (head (view_bytes m c <$> views)).
Proof.
  intros Hlist _. unfold FirstArg, NumArgs, view_bytes.
  destruct (args_ c) as [s|sl] eqn:Hargs.
  - destruct (Z_lt_dec (Z.of_nat (length (fa_elems (sizes s)))) (2 ^ 32))
      as [Hn|Hn].
    + rewrite (ArgList_own c s scratch Hargs Hn) in Hlist.
      injection Hlist as <- _.
      destruct (fa_elems (sizes s)) as [|sz szs]; [reflexivity|].
      cbn [length wrapped_views fmap list_fmap head default lookup list_lookup].
      rewrite (proj2 (Z.eqb_neq _ 0)) by lia.
      unfold buffer_bytes; cbn [sv_data sv_size].
      replace (str_data (buffer s) + 0 - str_data (buffer s)) with 0 by lia.
      reflexivity.
    + rewrite (ArgList_own_no_exit c s scratch Hargs) in Hlist by lia.
      discriminate.
  - unfold ArgList in Hlist. rewrite Hargs in Hlist. injection Hlist as <- _.
    destruct sl as [|a sl]; [reflexivity|].
    cbn [length fmap list_fmap head default lookup list_lookup].
    rewrite (proj2 (Z.eqb_neq _ 0)) by lia. reflexivity.
Qed.

(** *** The adopting constructor *)

Lemma adopt_loop_spec (args : ArgSlice) (b : std_string) (ft fd : Z) :
  forall (rest done : ArgSlice) (szs zs : list Z),
    args = done ++ rest ->
    length szs = length done ->
    length zs = length rest ->
    fold_range (adopt_size P args) (Z.of_nat (length done)) (length rest)
      {| buffer := b;
         sizes := {| fa_this := ft; fa_data := fd; fa_elems := szs ++ zs |} |} =
    Some {| buffer := b;
            sizes := {| fa_this := ft; fa_data := fd;
                        fa_elems := szs ++ (szf <$> rest) |} |}.
Proof.
  induction rest as [|a rest IH]; intros done szs zs Hargs Hszs Hzs.
  - destruct zs; [|discriminate]. reflexivity.
  - destruct zs as [|z zs]; [discriminate|].
    cbn [length fold_range]. unfold adopt_size at 1.
    rewrite Nat2Z.id, Hargs, list_lookup_middle by reflexivity.
    unfold fa_set; cbn [buffer sizes fa_this fa_data fa_elems].
    rewrite Nat2Z.id, <- Hszs, <- (Nat.add_0_r (length szs)), insert_app_r.
    cbn [insert list_insert]. rewrite Nat.add_0_r, Hszs.
    replace (Z.of_nat (length done) + 1) with (Z.of_nat (length (done ++ [a])))
      by (rewrite length_app; simpl; lia).
    rewrite (cons_middle _ szs), app_assoc.
    rewrite <- Hargs.
    rewrite (IH (done ++ [a]) (szs ++ [szf a]) zs).
    + rewrite fmap_cons, <- app_assoc. reflexivity.
    + rewrite <- app_assoc. exact Hargs.
    + rewrite !length_app, Hszs. reflexivity.
    + simpl in Hzs. lia.
Qed.

Lemma StoredCmd_adopt_spec (E : Placement) (buf : std_string) (cid : Z)
    (args : ArgSlice) (mode : ReplyMode) :
  Z.of_nat (length args) < 2 ^ 32 ->
  StoredCmd_adopt P E buf cid args mode =
  Some {| cid_ := cid; args_ := Own (adopted P E buf args); reply_mode_ := mode |}.
Proof.
  intros Hn. unfold StoredCmd_adopt.
  rewrite (for_unsigned_fold_range _ _ (length args)) by lia.
  unfold OwnStorage_new, fixed_array_new; cbn [buffer sizes].
  pose proof (adopt_loop_spec args
                (string_move P (string_empty P (buffer_at E)) buf) (sizes_at E)
                (if Z.of_nat (length args) <=? sizes_inline P
                 then sizes_at E + sizes_inline_off P else sizes_heap E)
                args [] [] (replicate (Z.to_nat (Z.of_nat (length args))) 0)
                eq_refl eq_refl) as Hloop.
  cbn [length app] in Hloop. change (Z.of_nat 0) with 0 in Hloop.
  rewrite Hloop by (rewrite length_replicate; lia). reflexivity.
Qed.

Lemma StoredCmd_adopt_no_exit (E : Placement) (buf : std_string) (cid : Z)
    (args : ArgSlice) (mode : ReplyMode) :
  2 ^ 32 <= Z.of_nat (length args) ->
  StoredCmd_adopt P E buf cid args mode = None.
Proof.
  intros Hn. unfold StoredCmd_adopt.
  rewrite for_unsigned_no_exit by lia. reflexivity.
Qed.




(** X4: the adopting constructor reads nothing of its arguments but their
    lengths: argument lists with the same lengths give the same command,
    wherever the views point. *)
Theorem adopt_uses_lengths_only (E : Placement) (buf : std_string) (cid : Z)
    (args args' : ArgSlice) (mode : ReplyMode) :
  sv_size <$> args = sv_size <$> args' ->
  StoredCmd_adopt P E buf cid args mode = StoredCmd_adopt P E buf cid args' mode.
Proof.
  intros Hsz.
  assert (Hlen : length args = length args').
  { rewrite <- (length_fmap sv_size args), Hsz, length_fmap. reflexivity. }
  destruct (Z_lt_dec (Z.of_nat (length args)) (2 ^ 32)) as [Hn|Hn].
  - rewrite !StoredCmd_adopt_spec by lia. unfold adopted. rewrite Hlen.
    assert (Hcomp : forall l : ArgSlice,
              szf <$> l = wrap (size_bits P) <$> (sv_size <$> l)).
    { intros l. rewrite <- list_fmap_compose. reflexivity. }
    rewrite !Hcomp, Hsz. reflexivity.
  - rewrite !StoredCmd_adopt_no_exit by lia. reflexivity.
Qed.

(** X5: with [2 ^ 32] arguments or more neither constructor that owns its
    arguments returns: the 32-bit counter of the loop never reaches the
    number of arguments. *)
Theorem constructors_do_not_return (E : Placement) (buf : std_string) (cid : Z)
    (args : ArgSlice) (mode : ReplyMode) :
  2 ^ 32 <= Z.of_nat (length args) ->
  StoredCmd_new P E m cid true args = None /\
  StoredCmd_adopt P E buf cid args mode = None.
Proof.
  intros Hn. split; [|apply StoredCmd_adopt_no_exit; exact Hn].
  unfold StoredCmd_new; cbn [negb].
  rewrite for_unsigned_no_exit by lia. reflexivity.
Qed.

End MoreStoredCmd.

Lemma ArgList_ignores_scratch_witness :
  exists views,
    (forall scratch,
       ArgList {| cid_ := 7;
                  args_ := Own (packed lp64 xy_memory placement0 small_args);
                  reply_mode_ := ReplyMode_FULL |} scratch =
       Some (views, views)) /\
    sv_size <$> views =
      fa_elems (sizes (packed lp64 xy_memory placement0 small_args)) /\
    (forall v, views !! 0%nat = Some v ->
       sv_data v = str_data (buffer (packed lp64 xy_memory placement0 small_args))).
Proof.
  apply (ArgList_ignores_scratch
           {| cid_ := 7;
              args_ := Own (packed lp64 xy_memory placement0 small_args);
              reply_mode_ := ReplyMode_FULL |}
           (packed lp64 xy_memory placement0 small_args)).
  - reflexivity.
  - vm_compute. reflexivity.
Defined.

Lemma FirstArg_first_view_witness :
  FirstArg xy_memory
    {| cid_ := 7; args_ := Own (packed lp64 xy_memory placement0 small_args);
       reply_mode_ := ReplyMode_FULL |} =
  default []
    (head (view_bytes xy_memory
             {| cid_ := 7;
                args_ := Own (packed lp64 xy_memory placement0 small_args);
                reply_mode_ := ReplyMode_FULL |} <$>
           [ {| sv_data := 1016; sv_size := 2 |};
             {| sv_data := 1018; sv_size := 0 |};
             {| sv_data := 1018; sv_size := 1 |} ])).
Proof.
  apply (FirstArg_first_view xy_memory
           {| cid_ := 7;
              args_ := Own (packed lp64 xy_memory placement0 small_args);
              reply_mode_ := ReplyMode_FULL |} []
           [ {| sv_data := 1016; sv_size := 2 |};
             {| sv_data := 1018; sv_size := 0 |};
             {| sv_data := 1018; sv_size := 1 |} ]
           [ {| sv_data := 1016; sv_size := 2 |};
             {| sv_data := 1018; sv_size := 0 |};
             {| sv_data := 1018; sv_size := 1 |} ]).
  - vm_compute. reflexivity.
  - intros s v [= <-] [= <-]. vm_compute. repeat split; discriminate.
Defined.


Lemma adopt_uses_lengths_only_witness :
  StoredCmd_adopt lp64 placement0 heap_buffer 7 heap_buffer_args ReplyMode_FULL =
  StoredCmd_adopt lp64 placement0 heap_buffer 7
    [ {| sv_data := 0; sv_size := 2 |};
      {| sv_data := 100; sv_size := 0 |};
      {| sv_data := 5; sv_size := 1 |} ] ReplyMode_FULL.
Proof.
  apply (adopt_uses_lengths_only lp64 placement0 heap_buffer 7). reflexivity.
Defined.

Lemma constructors_do_not_return_witness :
  StoredCmd_new lp64 placement0 xy_memory 7 true
    (replicate (Z.to_nat (2 ^ 32)) {| sv_data := 0; sv_size := 0 |}) = None /\
  StoredCmd_adopt lp64 placement0 heap_buffer 7
    (replicate (Z.to_nat (2 ^ 32)) {| sv_data := 0; sv_size := 0 |})
    ReplyMode_FULL = None.
Proof.
  apply (constructors_do_not_return lp64 xy_memory placement0 heap_buffer 7).
  rewrite length_replicate, Z2Nat.id by (apply Z.pow_nonneg; lia).
  apply Z.le_refl.
Defined.

(** ** Subscriptions: what a call does to the sets, the counts and the
    updater *)

Section MoreSubscriptions.

Context {AclKeys AclPubSub : Type}.
Implicit Types (cx : @ConnectionContext AclKeys AclPubSub).
Implicit Types (P : Platform) (tid : Z) (rb : RedisReplyBuilder).
Implicit Types (si : SubscribeInfo) (chs : list string).

Lemma info_after_nil pattern to_add si : info_after pattern to_add [] si = si.
Proof.
  unfold info_after. destruct to_add; cbn [list_to_set].
  - rewrite (right_id_L ∅ (∪)). apply set_local_store_id.
  - rewrite difference_empty_L. apply set_local_store_id.
Qed.

Lemma info_after_cons pattern to_add ch chs si :
  info_after pattern to_add (ch :: chs) si =
  info_after pattern to_add chs (info_step pattern to_add ch si).
Proof.
  unfold info_after, info_step.
  rewrite local_store_set, set_local_store_twice. f_equal.
  cbn [list_to_set]. destruct to_add; set_solver.
Qed.

Lemma info_after_snoc pattern to_add ch chs si :
  info_after pattern to_add (chs ++ [ch]) si =
  info_step pattern to_add ch (info_after pattern to_add chs si).
Proof.
  unfold info_after, info_step.
  rewrite local_store_set, set_local_store_twice. f_equal.
  rewrite list_to_set_app_L. cbn [list_to_set]. destruct to_add; set_solver.
Qed.

Lemma local_store_info_step pattern to_add ch si :
  local_store pattern (info_step pattern to_add ch si) =
  if to_add then local_store pattern si ∪ {[ch]}
  else local_store pattern si ∖ {[ch]}.
Proof. unfold info_step. apply local_store_set. Qed.

Lemma csu_add_nil csu : csu_add csu [] = csu.
Proof. destruct csu. unfold csu_add; simpl. rewrite app_nil_r. reflexivity. Qed.

Lemma csu_add_cons csu ch chs :
  csu_add csu (ch :: chs) = csu_add (csu_Record csu ch) chs.
Proof. unfold csu_add, csu_Record; simpl. rewrite <- app_assoc. reflexivity. Qed.

(** One turn of the loop. *)
Lemma change_one_spec pattern to_add to_reply si csu res i ch :
  change_one pattern to_add to_reply (si, csu, res, i) ch =
  (info_step pattern to_add ch si,
   (if bool_decide (ch ∈ local_store pattern si)
    then (if to_add then csu else csu_Record csu ch)
    else (if to_add then csu_Record csu ch else csu)),
   (if to_reply
    then <[i := SubscriptionCount (info_step pattern to_add ch si)]> res
    else res),
   (if to_reply then S i else i)).
Proof.
  unfold change_one, emplace, erase, info_step.
  destruct to_add, to_reply;
    destruct (decide (ch ∈ local_store pattern si)) as [Hin|Hin];
    rewrite ?(bool_decide_eq_true_2 _ Hin), ?(bool_decide_eq_false_2 _ Hin);
    try rewrite (bool_decide_eq_false_2 (ch ∉ _)) by tauto;
    try rewrite (bool_decide_eq_true_2 (ch ∉ _)) by tauto;
    reflexivity.
Qed.

(** The loop without a reply. *)
Lemma fold_change_quiet pattern to_add :
  forall chs si csu res i,
    foldl (change_one pattern to_add false) (si, csu, res, i) chs =
    (info_after pattern to_add chs si,
     csu_add csu (changed to_add (local_store pattern si) chs), res, i).
Proof.
  induction chs as [|ch chs IH]; intros si csu res i.
  - cbn [foldl changed]. rewrite info_after_nil, csu_add_nil. reflexivity.
  - cbn [foldl changed]. rewrite change_one_spec, IH, info_after_cons.
    rewrite local_store_info_step.
    destruct (bool_decide (ch ∈ local_store pattern si)), to_add;
      rewrite ?csu_add_cons; reflexivity.
Qed.

(** The loop with a reply. *)
Lemma fold_change_reply pattern to_add :
  forall chs si csu (pre zs : list Z),
    length zs = length chs ->
    foldl (change_one pattern to_add true) (si, csu, pre ++ zs, length pre) chs =
    (info_after pattern to_add chs si,
     csu_add csu (changed to_add (local_store pattern si) chs),
     pre ++ running_counts pattern to_add si chs,
     (length pre + length chs)%nat).
Proof.
  induction chs as [|ch chs IH]; intros si csu pre zs Hzs.
  - destruct zs; [|discriminate]. cbn [foldl changed running_counts length].
    rewrite info_after_nil, csu_add_nil, Nat.add_0_r. reflexivity.
  - destruct zs as [|z zs]; [discriminate|].
    cbn [foldl changed running_counts]. rewrite change_one_spec.
    rewrite <- (Nat.add_0_r (length pre)) at 1. rewrite insert_app_r.
    cbn [insert list_insert].
    replace (S (length pre)) with
      (length (pre ++ [SubscriptionCount (info_step pattern to_add ch si)]))
      by (rewrite length_app; simpl; lia).
    rewrite (cons_middle _ pre), app_assoc.
    rewrite IH by (simpl in Hzs; lia).
    rewrite info_after_cons, local_store_info_step.
    rewrite <- app_assoc, length_app. cbn [length app].
    replace (length pre + 1 + length chs)%nat with (length pre + S (length chs))%nat
      by lia.
    destruct (bool_decide (ch ∈ local_store pattern si)), to_add;
      rewrite ?csu_add_cons; reflexivity.
Qed.

Lemma length_running_counts pattern to_add :
  forall chs si, length (running_counts pattern to_add si chs) = length chs.
Proof.
  induction chs as [|ch chs IH]; intros si; [reflexivity|].
  cbn [running_counts length]. rewrite IH. reflexivity.
Qed.

Lemma lookup_running_counts pattern to_add :
  forall chs si (i : nat),
    (i < length chs)%nat ->
    running_counts pattern to_add si chs !! i =
    Some (SubscriptionCount (info_after pattern to_add (take (S i) chs) si)).
Proof.
  induction chs as [|ch chs IH]; intros si i Hi; [simpl in Hi; lia|].
  destruct i as [|i].
  - cbn [running_counts lookup list_lookup take].
    rewrite info_after_cons, info_after_nil. reflexivity.
  - cbn [running_counts lookup list_lookup]. rewrite IH by (simpl in Hi; lia).
    change (take (S (S i)) (ch :: chs)) with (ch :: take (S i) chs).
    rewrite info_after_cons. reflexivity.
Qed.

Lemma elem_of_changed to_add :
  forall chs (s : gset string) (x : string),
    x ∈ changed to_add s chs <->
    x ∈ chs /\ (if to_add then x ∉ s else x ∈ s).
Proof.
  induction chs as [|ch chs IH]; intros s x.
  - cbn [changed]. rewrite !elem_of_nil. tauto.
  - cbn [changed].
    destruct (decide (ch ∈ s)) as [Hin|Hin];
      rewrite ?(bool_decide_eq_true_2 _ Hin), ?(bool_decide_eq_false_2 _ Hin);
      destruct to_add; rewrite ?elem_of_cons, IH, ?elem_of_cons;
      destruct (decide (x = ch)) as [->|Hne]; set_solver.
Qed.

Lemma NoDup_changed to_add :
  forall chs (s : gset string), NoDup (changed to_add s chs).
Proof.
  induction chs as [|ch chs IH]; intros s; [constructor|].
  cbn [changed].
  destruct (bool_decide (ch ∈ s)), to_add; try apply IH;
    (constructor; [rewrite elem_of_changed; set_solver | apply IH]).
Qed.

Lemma changed_none (to_add : bool) chs (s : gset string) :
  (forall x : string, x ∈ chs -> if to_add then x ∈ s else x ∉ s) ->
  changed to_add s chs = [].
Proof.
  intros Hall. destruct (changed to_add s chs) as [|x l] eqn:Hc; [reflexivity|].
  assert (Hx : x ∈ changed to_add s chs) by (rewrite Hc; left).
  apply elem_of_changed in Hx as [Hin Hs]. specialize (Hall x Hin).
  destruct to_add; tauto.
Qed.

Lemma changed_remove_all :
  forall chs (s : gset string),
    NoDup chs -> (forall x : string, x ∈ chs -> x ∈ s) ->
    changed false s chs = chs.
Proof.
  induction chs as [|ch chs IH]; intros s Hnd Hall; [reflexivity|].
  apply NoDup_cons in Hnd as [Hnotin Hnd].
  cbn [changed]. rewrite bool_decide_eq_true_2 by (apply Hall; left).
  f_equal. apply IH; [exact Hnd|].
  intros x Hx. apply elem_of_difference. split; [apply Hall; right; exact Hx|].
  rewrite elem_of_singleton. intros ->. contradiction.
Qed.

(** *** [set_subscribe_info] *)

Lemma set_subscribe_info_twice (o o' : option SubscribeInfo) (n n' : Z) cx :
  set_subscribe_info o n (set_subscribe_info o' n' cx) = set_subscribe_info o n cx.
Proof. reflexivity. Qed.

Lemma set_subscribe_info_same cx :
  set_subscribe_info (subscribe_info (conn_state cx)) (subscriptions cx) cx = cx.
Proof. destruct cx as [? ? ? ? ? ? ? ? ? ? []]; reflexivity. Qed.

(** *** The call as a whole *)

Lemma ChangeSubscriptions_spec P tid cx chs (pattern to_add to_reply : bool) :
  to_add = true \/ is_Some (subscribe_info (conn_state cx)) ->
  ChangeSubscriptions P tid cx chs pattern to_add to_reply =
  ((if to_reply
    then running_counts pattern to_add
           (info_or_empty (subscribe_info (conn_state cx))) chs
    else []),
   context_after P cx chs pattern to_add,
   (match subscribe_info (conn_state cx) with
    | Some _ => []
    | None => [InfoCreated]
    end) ++
   [Applied (updater_after tid cx chs pattern to_add)] ++
   (if negb to_add &&
       IsEmpty (info_after pattern to_add chs
                  (info_or_empty (subscribe_info (conn_state cx))))
    then [InfoReset] else [])).
Proof.
  intros Hlive. unfold ChangeSubscriptions, context_after, updater_after.
  assert (Hearly : negb to_add &&
            negb (bool_decide (is_Some (subscribe_info (conn_state cx)))) = false).
  { destruct Hlive as [-> | Hs]; [reflexivity|].
    rewrite (bool_decide_eq_true_2 _ Hs). apply andb_false_r. }
  rewrite Hearly.
  destruct to_reply.
  - pose proof (fun si csu =>
        fold_change_reply pattern to_add chs si csu [] (replicate (length chs) 0)
          (length_replicate _ _)) as Hfold.
    cbn [app length] in Hfold.
    destruct (subscribe_info (conn_state cx)) as [si|]; cbn [info_or_empty default];
      rewrite Hfold; unfold csu_add; cbn [csu_pattern csu_to_add csu_tid csu_ops app];
      destruct (negb to_add && IsEmpty _); reflexivity.
  - cbn [replicate].
    destruct (subscribe_info (conn_state cx)) as [si|]; cbn [info_or_empty default];
      rewrite fold_change_quiet; unfold csu_add;
      cbn [csu_pattern csu_to_add csu_tid csu_ops app];
      destruct (negb to_add && IsEmpty _); reflexivity.
Qed.

Lemma ChangeSubscriptions_early P tid cx chs (pattern to_reply : bool) :
  subscribe_info (conn_state cx) = None ->
  ChangeSubscriptions P tid cx chs pattern false to_reply =
  (replicate (if to_reply then length chs else 0%nat) 0, cx, []).
Proof. intros Hnone. unfold ChangeSubscriptions. rewrite Hnone. reflexivity. Qed.

Lemma result_length P tid cx chs (pattern to_add to_reply : bool) :
  length (ChangeSubscriptions P tid cx chs pattern to_add to_reply).1.1 =
  if to_reply then length chs else 0%nat.
Proof.
  destruct (subscribe_info (conn_state cx)) as [si|] eqn:Hsi.
  - rewrite ChangeSubscriptions_spec by (right; rewrite Hsi; eexists; reflexivity).
    cbn [fst]. destruct to_reply; [apply length_running_counts | reflexivity].
  - destruct to_add.
    + rewrite ChangeSubscriptions_spec by (left; reflexivity).
      cbn [fst]. destruct to_reply; [apply length_running_counts | reflexivity].
    + rewrite ChangeSubscriptions_early by exact Hsi.
      cbn [fst]. apply length_replicate.
Qed.

Lemma invariant_not_empty si :
  channels si <> ∅ \/ patterns si <> ∅ -> IsEmpty si = false.
Proof.
  intros H. destruct (IsEmpty si) eqn:He; [|reflexivity].
  apply IsEmpty_spec in He. tauto.
Qed.

Lemma info_after_undo pattern chs si :
  (forall x : string, x ∈ chs -> x ∉ local_store pattern si) ->
  info_after pattern false chs (info_after pattern true chs si) = si.
Proof.
  intros Hnew. unfold info_after.
  rewrite local_store_set, set_local_store_twice.
  replace ((local_store pattern si ∪ list_to_set chs) ∖ list_to_set chs)
    with (local_store pattern si).
  - apply set_local_store_id.
  - apply set_eq. intros x.
    rewrite elem_of_difference, elem_of_union, elem_of_list_to_set.
    specialize (Hnew x). tauto.
Qed.

Lemma info_after_same pattern (to_add : bool) chs si :
  (forall x : string,
     x ∈ chs -> if to_add then x ∈ local_store pattern si
                else x ∉ local_store pattern si) ->
  info_after pattern to_add chs si = si.
Proof.
  intros Hall. unfold info_after.
  replace (if to_add then local_store pattern si ∪ list_to_set chs
           else local_store pattern si ∖ list_to_set chs)
    with (local_store pattern si).
  - apply set_local_store_id.
  - destruct to_add; apply set_eq; intros x;
      rewrite ?elem_of_difference, ?elem_of_union, elem_of_list_to_set;
      specialize (Hall x); tauto.
Qed.

(** X6: a call changes nothing of the context but the Subscribe Info and
    the subscription counter, and in the Subscribe Info nothing but the set
    it works on: in pattern mode the exact channels stay as they are, and
    the patterns in channel mode. *)
Theorem ChangeSubscriptions_frame P tid cx chs (pattern to_add to_reply : bool) :
  let cx' := (ChangeSubscriptions P tid cx chs pattern to_add to_reply).1.2 in
  conn cx' = conn cx /\
  transaction cx' = transaction cx /\
  acl_commands cx' = acl_commands cx /\
  keys cx' = keys cx /\
  pub_sub cx' = pub_sub cx /\
  skip_acl_validation cx' = skip_acl_validation cx /\
  has_main_or_memcache_listener cx' = has_main_or_memcache_listener cx /\
  acl_db_idx cx' = acl_db_idx cx /\
  ns cx' = ns cx /\
  db_index (conn_state cx') = db_index (conn_state cx) /\
  squashing_info (conn_state cx') = squashing_info (conn_state cx) /\
  forall si',
    subscribe_info (conn_state cx') = Some si' ->
    local_store (negb pattern) si' =
    local_store (negb pattern) (info_or_empty (subscribe_info (conn_state cx))).
Proof.
  cbv zeta.
  assert (Hcases : (to_add = true \/ is_Some (subscribe_info (conn_state cx))) \/
                   (to_add = false /\ subscribe_info (conn_state cx) = None)).
  { destruct to_add; [left; left; reflexivity|].
    destruct (subscribe_info (conn_state cx)) eqn:Hsi;
      [left; right; eexists; reflexivity | right; split; reflexivity]. }
  destruct Hcases as [Hlive | [-> Hnone]].
  - rewrite ChangeSubscriptions_spec by exact Hlive. cbn [fst snd].
    unfold context_after.
    destruct (negb to_add && IsEmpty _);
      cbn [set_subscribe_info conn transaction acl_commands keys pub_sub
           skip_acl_validation has_main_or_memcache_listener acl_db_idx ns
           conn_state db_index squashing_info subscribe_info];
      repeat (split; [reflexivity|]).
    + intros si' [=].
    + intros si' [= <-]. unfold info_after. apply other_store_set.
  - rewrite ChangeSubscriptions_early by exact Hnone. cbn [fst snd].
    repeat (split; [reflexivity|]).
    intros si' Hsi'. rewrite Hnone in Hsi'. discriminate.
Qed.

(** X7: the context after a call depends on the channels given as a set
    only, not on their order, on repetitions or on whether a reply is
    requested; after adding, the record is present and its set is the old
    one joined with the given channels. *)
Theorem ChangeSubscriptions_set_semantics P tid cx chs chs'
    (pattern to_add to_reply to_reply' : bool) :
  (forall x : string, x ∈ chs <-> x ∈ chs') ->
  (ChangeSubscriptions P tid cx chs pattern to_add to_reply).1.2 =
  (ChangeSubscriptions P tid cx chs' pattern to_add to_reply').1.2 /\
  (to_add = true ->
   subscribe_info (conn_state
     (ChangeSubscriptions P tid cx chs pattern to_add to_reply).1.2) =
   Some (set_local_store pattern
           (local_store pattern (info_or_empty (subscribe_info (conn_state cx)))
            ∪ list_to_set chs)
           (info_or_empty (subscribe_info (conn_state cx))))).
Proof.
  intros Hsame.
  assert (Hset : list_to_set chs =@{gset string} list_to_set chs').
  { apply set_eq. intros x. rewrite !elem_of_list_to_set. apply Hsame. }
  split.
  - destruct to_add.
    + rewrite !ChangeSubscriptions_spec by (left; reflexivity). cbn [fst snd].
      unfold context_after, info_after. rewrite Hset. reflexivity.
    + destruct (subscribe_info (conn_state cx)) as [si|] eqn:Hsi.
      * rewrite !ChangeSubscriptions_spec
          by (right; rewrite Hsi; eexists; reflexivity).
        cbn [fst snd]. unfold context_after, info_after. rewrite Hset.
        reflexivity.
      * rewrite !ChangeSubscriptions_early by exact Hsi. reflexivity.
  - intros ->. rewrite ChangeSubscriptions_spec by (left; reflexivity).
    cbn [fst snd]. unfold context_after. cbn [negb andb].
    reflexivity.
Qed.

(** X8: with a reply requested, a call that is not the early return
    reports one count for each channel given, and the count at each
    position is the number of channels and patterns subscribed once the
    channels up to that position are processed. *)
Theorem ChangeSubscriptions_running_counts P tid cx chs (pattern to_add : bool) :
  to_add = true \/ is_Some (subscribe_info (conn_state cx)) ->
  length (ChangeSubscriptions P tid cx chs pattern to_add true).1.1 = length chs /\
  forall i : nat,
    (i < length chs)%nat ->
    (ChangeSubscriptions P tid cx chs pattern to_add true).1.1 !! i =
    Some (SubscriptionCount
            (info_after pattern to_add (take (S i) chs)
               (info_or_empty (subscribe_info (conn_state cx))))).
Proof.
  intros Hlive. rewrite ChangeSubscriptions_spec by exact Hlive. cbn [fst].
  split; [apply length_running_counts|].
  intros i Hi. apply lookup_running_counts. exact Hi.
Qed.

(** X9: a call that is not the early return applies one updater, for the
    mode and direction of the call; it holds each channel that changed the
    set once: when adding, the given channels that were not subscribed,
    when removing, those that were. *)
Theorem ChangeSubscriptions_records_changes P tid cx chs
    (pattern to_add to_reply : bool) :
  to_add = true \/ is_Some (subscribe_info (conn_state cx)) ->
  exists csu,
    Applied csu ∈ (ChangeSubscriptions P tid cx chs pattern to_add to_reply).2 /\
    csu_pattern csu = pattern /\
    csu_to_add csu = to_add /\
    csu_tid csu = u32 tid /\
    NoDup (csu_ops csu) /\
    forall x : string,
      x ∈ csu_ops csu <->
      x ∈ chs /\
      (if to_add
       then x ∉ local_store pattern (info_or_empty (subscribe_info (conn_state cx)))
       else x ∈ local_store pattern (info_or_empty (subscribe_info (conn_state cx)))).
Proof.
  intros Hlive. exists (updater_after tid cx chs pattern to_add).
  rewrite ChangeSubscriptions_spec by exact Hlive. cbn [snd].
  split; [rewrite !elem_of_app, elem_of_cons; tauto|].
  split; [reflexivity|]. split; [reflexivity|]. split; [reflexivity|].
  split; [apply NoDup_changed|].
  intros x. apply elem_of_changed.
Qed.

(** X10: adding channels that are all subscribed already, or removing
    channels none of which is subscribed from a record that is not empty,
    leaves the context as it is and applies an updater with no channel. *)
Theorem ChangeSubscriptions_no_change P tid cx chs (pattern to_add to_reply : bool)
    si :
  subscribe_info (conn_state cx) = Some si ->
  (to_add = false -> IsEmpty si = false) ->
  (forall x : string,
     x ∈ chs -> if to_add then x ∈ local_store pattern si
                else x ∉ local_store pattern si) ->
  (ChangeSubscriptions P tid cx chs pattern to_add to_reply).1.2 = cx /\
  (ChangeSubscriptions P tid cx chs pattern to_add to_reply).2 =
    [Applied {| csu_pattern := pattern; csu_to_add := to_add;
                csu_tid := u32 tid; csu_ops := [] |}].
Proof.
  intros Hsi Hne Hall.
  rewrite ChangeSubscriptions_spec by (right; rewrite Hsi; eexists; reflexivity).
  cbn [fst snd]. unfold context_after, updater_after.
  rewrite Hsi. change (info_or_empty (Some si)) with si.
  rewrite (info_after_same pattern to_add chs si Hall).
  rewrite (changed_none to_add chs (local_store pattern si) Hall).
  assert (Hkeep : negb to_add && IsEmpty si = false).
  { destruct to_add; [reflexivity|]. rewrite Hne by reflexivity. reflexivity. }
  rewrite Hkeep. split; [|reflexivity].
  rewrite <- Hsi. apply set_subscribe_info_same.
Qed.

(** X11: subscribing to channels none of which is subscribed yet and then
    unsubscribing from the same channels gives back the context as it was,
    when the record was absent or not empty and the counter has room. *)
Theorem subscribe_then_unsubscribe P tid tid' cx chs (pattern r r' : bool) :
  info_invariant cx ->
  (forall x : string,
     x ∈ chs ->
     x ∉ local_store pattern (info_or_empty (subscribe_info (conn_state cx)))) ->
  0 <= subscriptions cx ->
  subscriptions cx + 1 < 2 ^ subs_bits P ->
  (ChangeSubscriptions P tid'
     (ChangeSubscriptions P tid cx chs pattern true r).1.2 chs pattern false r').1.2
  = cx.
Proof.
  intros Hinv Hnew Hpos Hroom.
  rewrite (ChangeSubscriptions_spec P tid cx) by (left; reflexivity).
  cbn [fst snd]. unfold context_after at 1. cbn [negb andb].
  rewrite ChangeSubscriptions_spec
    by (right; cbn [set_subscribe_info conn_state subscribe_info];
        eexists; reflexivity).
  cbn [fst snd]. unfold context_after.
  cbn [set_subscribe_info conn_state subscribe_info subscriptions
       info_or_empty default negb andb].
  unfold id. rewrite info_after_undo by exact Hnew.
  rewrite !set_subscribe_info_twice.
  unfold info_invariant in Hinv.
  destruct (subscribe_info (conn_state cx)) as [si|] eqn:Hsi.
  - change (info_or_empty (Some si)) with si.
    rewrite (invariant_not_empty si Hinv).
    rewrite <- Hsi. apply set_subscribe_info_same.
  - change (info_or_empty None) with {| channels := ∅; patterns := ∅ |}.
    assert (He : IsEmpty {| channels := ∅; patterns := ∅ |} = true)
      by (apply IsEmpty_spec; split; reflexivity).
    rewrite He. rewrite (wrap_small _ (subscriptions cx + 1)) by lia.
    replace (subscriptions cx + 1 - 1) with (subscriptions cx) by lia.
    rewrite wrap_small by lia.
    rewrite <- Hsi. apply set_subscribe_info_same.
Qed.

(** X12: on a connection with a Subscribe Info, [Unsubscribe] leaves the
    context that [ChangeSubscriptions] leaves when it removes the one
    channel without a reply; it only skips the updater. *)
Theorem Unsubscribe_as_ChangeSubscriptions P tid cx (ch : string) (to_reply : bool) si :
  subscribe_info (conn_state cx) = Some si ->
  fst <$> Unsubscribe P cx ch =
  Some (ChangeSubscriptions P tid cx [ch] false false to_reply).1.2.
Proof.
  intros Hsi.
  rewrite ChangeSubscriptions_spec by (right; rewrite Hsi; eexists; reflexivity).
  cbn [fst snd]. unfold Unsubscribe, context_after, erase.
  rewrite Hsi. change (info_or_empty (Some si)) with si. cbn [negb andb].
  assert (Hinfo : info_after false false [ch] si =
                  {| channels := channels si ∖ {[ch]}; patterns := patterns si |}).
  { unfold info_after; cbn [local_store set_local_store list_to_set].
    f_equal. set_solver. }
  rewrite Hinfo.
  destruct (IsEmpty _); reflexivity.
Qed.

End MoreSubscriptions.

(** ** Replies, and unsubscribing from everything *)

Section MoreReplies.

Context {AclKeys AclPubSub : Type}.
Implicit Types (cx : @ConnectionContext AclKeys AclPubSub).
Implicit Types (P : Platform) (tid : Z) (rb : RedisReplyBuilder).
Implicit Types (si : SubscribeInfo) (args : list string).

Lemma send_results_from (action : string) :
  forall (result : list Z) args (pa : list string) (pr : list Z) rb,
    length pa = length pr ->
    length args = length result ->
    foldl (fun rb i =>
             SendSubscriptionChangedResponse action (Some (ArgS (pa ++ args) i))
               (default 0 ((pr ++ result) !! i)) rb)
          rb (seq (length pr) (length result)) =
    rb ++ concat (zip_with (fun a c => push_frame action (Some a) c) args result).
Proof.
  induction result as [|c result IH]; intros args pa pr rb Hp Hlen.
  - destruct args; [|discriminate]. cbn [length seq foldl zip_with concat].
    rewrite app_nil_r. reflexivity.
  - destruct args as [|a args]; [discriminate|].
    cbn [length seq foldl zip_with concat].
    assert (Ha : ArgS (pa ++ a :: args) (length pr) = a).
    { unfold ArgS. rewrite <- Hp, list_lookup_middle by reflexivity. reflexivity. }
    assert (Hc : default 0 ((pr ++ c :: result) !! length pr) = c).
    { rewrite list_lookup_middle by reflexivity. reflexivity. }
    rewrite Ha, Hc, send_response_frame.
    replace (S (length pr)) with (length (pr ++ [c]))
      by (rewrite length_app; simpl; lia).
    rewrite (cons_middle a pa), (cons_middle c pr), !app_assoc.
    rewrite IH.
    + rewrite <- !app_assoc. reflexivity.
    + rewrite !length_app, Hp. reflexivity.
    + simpl in Hlen. lia.
Qed.

Lemma send_results_spec (action : string) args (result : list Z) rb :
  length args = length result ->
  send_results action args result rb =
  rb ++ concat (zip_with (fun a c => push_frame action (Some a) c) args result).
Proof.
  intros Hlen. unfold send_results.
  apply (send_results_from action result args [] [] rb eq_refl Hlen).
Qed.

(** X13: with a reply requested, [ChangeSubscription] sends, inside one
    reply scope, one push frame for each argument, in order, with the
    argument as topic and the count reported for it; [ChangePSubscription]
    does the same for a list that is not empty; without a reply requested
    neither sends anything. *)
Theorem subscription_replies P tid cx (to_add : bool) args rb :
  length (ChangeSubscriptions P tid cx args false to_add true).1.1 = length args /\
  (ChangeSubscription P tid cx to_add true args rb).1.2 =
    rb ++ ReplyScopeBegin ::
      concat (zip_with
                (fun a c =>
                   push_frame (if to_add then "subscribe" else "unsubscribe")
                     (Some a) c)
                args (ChangeSubscriptions P tid cx args false to_add true).1.1) ++
      [ReplyScopeEnd] /\
  (args <> [] ->
   (ChangePSubscription P tid cx to_add true args rb).1.2 =
     rb ++ ReplyScopeBegin ::
       concat (zip_with
                 (fun a c =>
                    push_frame (if to_add then "psubscribe" else "punsubscribe")
                      (Some a) c)
                 args (ChangeSubscriptions P tid cx args true to_add true).1.1) ++
       [ReplyScopeEnd]) /\
  (ChangeSubscription P tid cx to_add false args rb).1.2 = rb /\
  (ChangePSubscription P tid cx to_add false args rb).1.2 = rb.
Proof.
  pose proof (result_length P tid cx args false to_add true) as Hc.
  pose proof (result_length P tid cx args true to_add true) as Hp.
  cbn beta iota in Hc, Hp.
  split; [exact Hc|]. unfold ChangeSubscription, ChangePSubscription.
  destruct (ChangeSubscriptions P tid cx args false to_add true) as [[rc cxc] ec].
  destruct (ChangeSubscriptions P tid cx args true to_add true) as [[rp cxp] ep].
  destruct (ChangeSubscriptions P tid cx args false to_add false) as [[rc' cxc'] ec'].
  destruct (ChangeSubscriptions P tid cx args true to_add false) as [[rp' cxp'] ep'].
  cbn [fst snd] in *. unfold action_name.
  split; [|split; [|split; reflexivity]].
  - rewrite send_results_spec by (symmetry; exact Hc).
    rewrite <- !app_assoc. reflexivity.
  - intros Hne.
    rewrite bool_decide_eq_false_2
      by (rewrite Hp; destruct args; [contradiction | discriminate]).
    cbn [fst snd].
    rewrite send_results_spec by (symmetry; exact Hp).
    rewrite <- !app_assoc. reflexivity.
Qed.

Lemma list_to_set_elements (s : gset string) : list_to_set (elements s) = s.
Proof. apply list_to_set_elements_L. Qed.

Lemma info_after_all_channels si :
  info_after false false (elements (channels si)) si =
  {| channels := ∅; patterns := patterns si |}.
Proof.
  unfold info_after; cbn [local_store set_local_store].
  rewrite list_to_set_elements. f_equal. set_solver.
Qed.

Lemma info_after_all_patterns si :
  info_after true false (elements (patterns si)) si =
  {| channels := channels si; patterns := ∅ |}.
Proof.
  unfold info_after; cbn [local_store set_local_store].
  rewrite list_to_set_elements. f_equal. set_solver.
Qed.

Lemma changed_elements (s : gset string) : changed false s (elements s) = elements s.
Proof.
  apply changed_remove_all; [apply NoDup_elements|].
  intros x Hx. apply elem_of_elements. exact Hx.
Qed.

Lemma IsEmpty_no_channels si :
  IsEmpty {| channels := ∅; patterns := patterns si |} =
  bool_decide (patterns si = ∅).
Proof. unfold IsEmpty; cbn [channels patterns]. rewrite bool_decide_eq_true_2; reflexivity. Qed.

Lemma IsEmpty_no_patterns si :
  IsEmpty {| channels := channels si; patterns := ∅ |} =
  bool_decide (channels si = ∅).
Proof.
  unfold IsEmpty; cbn [channels patterns].
  rewrite (bool_decide_eq_true_2 (∅ = ∅)) by reflexivity. apply andb_true_r.
Qed.

(** What [UnsubscribeAll] does on a record that is present, when it goes
    on to the general change (no reply requested, or channels present). *)
Lemma UnsubscribeAll_general P tid cx (to_reply : bool) rb si :
  subscribe_info (conn_state cx) = Some si ->
  to_reply = false \/ channels si <> ∅ ->
  exists rb',
    UnsubscribeAll P tid cx to_reply rb =
    Some ((if bool_decide (patterns si = ∅)
           then set_subscribe_info None
                  (wrap (subs_bits P) (subscriptions cx - 1)) cx
           else set_subscribe_info
                  (Some {| channels := ∅; patterns := patterns si |})
                  (subscriptions cx) cx),
          rb',
          Applied {| csu_pattern := false; csu_to_add := false;
                     csu_tid := u32 tid;
                     csu_ops := elements (channels si) |} ::
          (if bool_decide (patterns si = ∅) then [InfoReset] else [])) /\
    (to_reply = false -> rb' = rb).
Proof.
  intros Hsi Hgo. unfold UnsubscribeAll. rewrite Hsi.
  assert (Hcond : to_reply && bool_decide (channels si = ∅) = false).
  { destruct Hgo as [-> | Hne]; [reflexivity|].
    rewrite (bool_decide_eq_false_2 _ Hne). apply andb_false_r. }
  rewrite Hcond. unfold ChangeSubscription.
  rewrite ChangeSubscriptions_spec by (right; rewrite Hsi; eexists; reflexivity).
  unfold context_after, updater_after. rewrite Hsi.
  change (info_or_empty (Some si)) with si. cbn [negb andb local_store].
  rewrite info_after_all_channels, IsEmpty_no_channels, changed_elements.
  destruct to_reply; eexists; (split; [reflexivity|]);
    [intros [=] | reflexivity].
Qed.

Lemma PUnsubscribeAll_general P tid cx (to_reply : bool) rb si :
  subscribe_info (conn_state cx) = Some si ->
  to_reply = false \/ patterns si <> ∅ ->
  exists rb',
    PUnsubscribeAll P tid cx to_reply rb =
    Some ((if bool_decide (channels si = ∅)
           then set_subscribe_info None
                  (wrap (subs_bits P) (subscriptions cx - 1)) cx
           else set_subscribe_info
                  (Some {| channels := channels si; patterns := ∅ |})
                  (subscriptions cx) cx),
          rb',
          Applied {| csu_pattern := true; csu_to_add := false;
                     csu_tid := u32 tid;
                     csu_ops := elements (patterns si) |} ::
          (if bool_decide (channels si = ∅) then [InfoReset] else [])) /\
    (to_reply = false -> rb' = rb).
Proof.
  intros Hsi Hgo. unfold PUnsubscribeAll. rewrite Hsi.
  assert (Hcond : to_reply && bool_decide (patterns si = ∅) = false).
  { destruct Hgo as [-> | Hne]; [reflexivity|].
    rewrite (bool_decide_eq_false_2 _ Hne). apply andb_false_r. }
  rewrite Hcond. unfold ChangePSubscription.
  rewrite ChangeSubscriptions_spec by (right; rewrite Hsi; eexists; reflexivity).
  unfold context_after, updater_after. rewrite Hsi.
  change (info_or_empty (Some si)) with si. cbn [negb andb local_store].
  rewrite info_after_all_patterns, IsEmpty_no_patterns, changed_elements.
  destruct to_reply; [|eexists; split; reflexivity].
  cbn [fst snd].
  destruct (bool_decide (length _ = 0%nat)); eexists;
    (split; [reflexivity | intros [=]]).
Qed.

Lemma info_after_every (pattern : bool) (order : list string) si :
  (forall x, x ∈ order <-> x ∈ local_store pattern si) ->
  info_after pattern false order si = set_local_store pattern ∅ si.
Proof.
  intros Hall. unfold info_after. f_equal.
  apply set_eq. intros x. rewrite elem_of_difference, elem_of_list_to_set, Hall.
  set_solver.
Qed.

(** The model with the order of [elements] is the model with an explicit
    enumeration, at that order. *)
Lemma UnsubscribeAll_at_elements P tid cx (to_reply : bool) rb si :
  subscribe_info (conn_state cx) = Some si ->
  UnsubscribeAll P tid cx to_reply rb =
    UnsubscribeAll_in (elements (channels si)) P tid cx to_reply rb /\
  PUnsubscribeAll P tid cx to_reply rb =
    PUnsubscribeAll_in (elements (patterns si)) P tid cx to_reply rb.
Proof.
  intros Hsi. unfold UnsubscribeAll, UnsubscribeAll_in, PUnsubscribeAll,
    PUnsubscribeAll_in. rewrite Hsi. split; reflexivity.
Qed.

(** X14: on a connection subscribed to at least one exact channel, and in
    whatever order the set of channels is enumerated (every channel of the
    set once), [UnsubscribeAll] removes every exact channel and leaves the
    patterns; the updater gets the channels as enumerated; the record is
    reset, and the counter taken down by one, exactly when there is no
    pattern.  [PUnsubscribeAll] does the same with the roles of the two
    sets exchanged. *)
Theorem UnsubscribeAll_removes_all P tid cx (to_reply : bool) rb si
    (order : list string) :
  subscribe_info (conn_state cx) = Some si ->
  NoDup order ->
  (channels si <> ∅ ->
   (forall x, x ∈ order <-> x ∈ channels si) ->
   exists rb',
     UnsubscribeAll_in order P tid cx to_reply rb =
     Some ((if bool_decide (patterns si = ∅)
            then set_subscribe_info None
                   (wrap (subs_bits P) (subscriptions cx - 1)) cx
            else set_subscribe_info
                   (Some {| channels := ∅; patterns := patterns si |})
                   (subscriptions cx) cx),
           rb',
           Applied {| csu_pattern := false; csu_to_add := false;
                      csu_tid := u32 tid;
                      csu_ops := order |} ::
           (if bool_decide (patterns si = ∅) then [InfoReset] else []))) /\
  (patterns si <> ∅ ->
   (forall x, x ∈ order <-> x ∈ patterns si) ->
   exists rb',
     PUnsubscribeAll_in order P tid cx to_reply rb =
     Some ((if bool_decide (channels si = ∅)
            then set_subscribe_info None
                   (wrap (subs_bits P) (subscriptions cx - 1)) cx
            else set_subscribe_info
                   (Some {| channels := channels si; patterns := ∅ |})
                   (subscriptions cx) cx),
           rb',
           Applied {| csu_pattern := true; csu_to_add := false;
                      csu_tid := u32 tid;
                      csu_ops := order |} ::
           (if bool_decide (channels si = ∅) then [InfoReset] else []))).
Proof.
  intros Hsi Hnd. split; intros Hne Hall.
  - unfold UnsubscribeAll_in. rewrite Hsi.
    rewrite (bool_decide_eq_false_2 _ Hne), andb_false_r.
    unfold ChangeSubscription.
    rewrite ChangeSubscriptions_spec by (right; rewrite Hsi; eexists; reflexivity).
    unfold context_after, updater_after. rewrite Hsi.
    change (info_or_empty (Some si)) with si. cbn [negb andb].
    rewrite (info_after_every false order si Hall).
    cbn [set_local_store local_store].
    rewrite IsEmpty_no_channels.
    rewrite (changed_remove_all order (channels si) Hnd)
      by (intros x Hx; apply Hall; exact Hx).
    destruct to_reply; eexists; reflexivity.
  - unfold PUnsubscribeAll_in. rewrite Hsi.
    rewrite (bool_decide_eq_false_2 _ Hne), andb_false_r.
    unfold ChangePSubscription.
    rewrite ChangeSubscriptions_spec by (right; rewrite Hsi; eexists; reflexivity).
    unfold context_after, updater_after. rewrite Hsi.
    change (info_or_empty (Some si)) with si. cbn [negb andb].
    rewrite (info_after_every true order si Hall).
    cbn [set_local_store local_store].
    rewrite IsEmpty_no_patterns.
    rewrite (changed_remove_all order (patterns si) Hnd)
      by (intros x Hx; apply Hall; exact Hx).
    destruct to_reply; [|eexists; reflexivity].
    cbn [fst snd].
    destruct (bool_decide (length _ = 0%nat)); eexists; reflexivity.
Qed.

(** X15: tearing a connection down without replies: on a connection with
    a Subscribe Info, [UnsubscribeAll] followed, if the record is still
    there, by [PUnsubscribeAll] leaves no record, has taken exactly one
    from the counter and has sent nothing. *)
Theorem unsubscribe_everything P tid cx rb si :
  subscribe_info (conn_state cx) = Some si ->
  exists cx1 eff1,
    UnsubscribeAll P tid cx false rb = Some (cx1, rb, eff1) /\
    (patterns si = ∅ ->
     cx1 = set_subscribe_info None (wrap (subs_bits P) (subscriptions cx - 1)) cx) /\
    (patterns si <> ∅ ->
     is_Some (subscribe_info (conn_state cx1)) /\
     exists eff2,
       PUnsubscribeAll P tid cx1 false rb =
       Some (set_subscribe_info None
               (wrap (subs_bits P) (subscriptions cx - 1)) cx, rb, eff2)).
Proof.
  intros Hsi.
  destruct (UnsubscribeAll_general P tid cx false rb si Hsi (or_introl eq_refl))
    as (rb' & Heq & Hrb).
  rewrite (Hrb eq_refl) in Heq. eexists _, _. split; [exact Heq|].
  split.
  - intros He. rewrite (bool_decide_eq_true_2 _ He). reflexivity.
  - intros Hne. rewrite (bool_decide_eq_false_2 _ Hne).
    split; [eexists; reflexivity|].
    destruct (PUnsubscribeAll_general P tid
                (set_subscribe_info
                   (Some {| channels := ∅; patterns := patterns si |})
                   (subscriptions cx) cx)
                false rb {| channels := ∅; patterns := patterns si |}
                eq_refl (or_introl eq_refl))
      as (rb2 & Heq2 & Hrb2).
    rewrite (Hrb2 eq_refl) in Heq2. rewrite Heq2.
    cbn [channels]. rewrite bool_decide_eq_true_2 by reflexivity.
    eexists. reflexivity.
Qed.

(** X18: with a reply requested and no exact channel subscribed, whether
    the record is absent or holds patterns only, [UnsubscribeAll] sends the
    one frame with a null topic and the count 0 and changes nothing;
    [PUnsubscribeAll] does so when no pattern is subscribed. *)
Theorem UnsubscribeAll_nothing_to_remove P tid cx rb :
  (match subscribe_info (conn_state cx) with
   | None => True
   | Some si => channels si = ∅
   end ->
   UnsubscribeAll P tid cx true rb =
   Some (cx, rb ++ push_frame "unsubscribe" None 0, [])) /\
  (match subscribe_info (conn_state cx) with
   | None => True
   | Some si => patterns si = ∅
   end ->
   PUnsubscribeAll P tid cx true rb =
   Some (cx, rb ++ push_frame "punsubscribe" None 0, [])).
Proof.
  unfold UnsubscribeAll, PUnsubscribeAll.
  destruct (subscribe_info (conn_state cx)) as [si|]; split; intros Hnone;
    rewrite ?(bool_decide_eq_true_2 _ Hnone); cbn [andb];
    rewrite send_response_frame; reflexivity.
Qed.

End MoreReplies.

(** ** Contexts: the root constructor and the squashing constructor *)

Section MoreContexts.

Context {AclKeys AclPubSub : Type}.
Variable NumberOfFamilies : nat.
Variable NONE_COMMANDS : Z.
Implicit Types (h : gmap Z (@ConnectionContext AclKeys AclPubSub)).

(** X16: the squashing constructor is defined exactly when its parent, if
    it has one, is alive, and a transaction comes with a parent; it
    changes no context at another address; the child has no connection,
    holds the transaction, and starts with the subscription state of a
    new context, not with that of its parent; without a parent its ACL
    bitmap allows no command in any family; with a transaction it has the
    selected database of the parent and points back to it. *)
Theorem squashed_frame blank h (this : Z) (owner tx : option Z) :
  (is_Some (ConnectionContext_squashed NumberOfFamilies NONE_COMMANDS blank h
              this owner tx) <->
   match owner with
   | Some p => is_Some (h !! p)
   | None => tx = None
   end) /\
  forall h',
    ConnectionContext_squashed NumberOfFamilies NONE_COMMANDS blank h this owner tx
      = Some h' ->
    (forall q : Z, q <> this -> h' !! q = h !! q) /\
    exists child,
      h' !! this = Some child /\
      conn child = None /\
      transaction child = tx /\
      subscriptions child = subscriptions blank /\
      subscribe_info (conn_state child) = subscribe_info (conn_state blank) /\
      (owner = None ->
       acl_commands child = replicate NumberOfFamilies NONE_COMMANDS) /\
      (forall p parent,
         owner = Some p -> h !! p = Some parent -> tx <> None ->
         db_index (conn_state child) = db_index (conn_state parent) /\
         squashing_info (conn_state child) = Some p).
Proof.
  unfold ConnectionContext_squashed. split.
  - destruct owner as [p|].
    + destruct (h !! p) as [o|] eqn:Hp.
      * destruct tx; split; intros _; eexists; reflexivity.
      * split; intros [x Hx]; discriminate.
    + destruct tx as [t|]; cbn [set_acl_commands].
      * split; [intros [x Hx]; discriminate | intros [=]].
      * split; [intros _; reflexivity | intros _; eexists; reflexivity].
  - intros h' Hsome. destruct owner as [p|].
    + destruct (h !! p) as [o|] eqn:Hp; [|discriminate].
      destruct tx as [t|]; injection Hsome as <-;
        (split; [intros q Hq; apply lookup_insert_ne; congruence|]);
        (eexists; split; [apply lookup_insert_eq|]);
        cbn [conn transaction subscriptions conn_state subscribe_info
             db_index squashing_info];
        repeat (split; [first [reflexivity | discriminate]|]).
      * intros p' parent [= <-] Hparent _.
        rewrite Hp in Hparent. injection Hparent as <-. split; reflexivity.
      * intros p' parent _ _ Htx. contradiction.
    + destruct tx as [t|]; [discriminate|]. injection Hsome as <-.
      split; [intros q Hq; apply lookup_insert_ne; congruence|].
      eexists. split; [apply lookup_insert_eq|].
      cbn [conn transaction subscriptions conn_state subscribe_info
           set_acl_commands acl_commands].
      repeat (split; [reflexivity|]).
      intros p' parent [=].
Qed.

(** X17: a root context has the key patterns, pub/sub patterns and database
    of its credentials and their ACL bitmap, or the bitmap that allows no
    command when they carry none, so its bitmap is never empty when there
    is a command family; a child squashed from it has the same
    permissions and flags. *)
Theorem root_context_credentials blank (owner : option Connection)
    (cred : @UserCredentials AclKeys AclPubSub) :
  keys (ConnectionContext_root NumberOfFamilies NONE_COMMANDS blank owner cred) =
    cred_keys cred /\
  pub_sub (ConnectionContext_root NumberOfFamilies NONE_COMMANDS blank owner cred) =
    cred_pub_sub cred /\
  acl_db_idx (ConnectionContext_root NumberOfFamilies NONE_COMMANDS blank owner cred)
    = cred_db cred /\
  acl_commands (ConnectionContext_root NumberOfFamilies NONE_COMMANDS blank owner cred)
    = (if bool_decide (cred_acl_commands cred = [])
       then replicate NumberOfFamilies NONE_COMMANDS
       else cred_acl_commands cred) /\
  ((0 < NumberOfFamilies)%nat ->
   acl_commands
     (ConnectionContext_root NumberOfFamilies NONE_COMMANDS blank owner cred) <> []) /\
  forall h (this p : Z) (tx : option Z),
    h !! p =
      Some (ConnectionContext_root NumberOfFamilies NONE_COMMANDS blank owner cred) ->
    this <> p ->
    exists child,
      ConnectionContext_squashed NumberOfFamilies NONE_COMMANDS blank h this
        (Some p) tx = Some (<[this := child]> h) /\
      keys child = cred_keys cred /\
      pub_sub child = cred_pub_sub cred /\
      acl_db_idx child = cred_db cred /\
      acl_commands child =
        acl_commands
          (ConnectionContext_root NumberOfFamilies NONE_COMMANDS blank owner cred) /\
      skip_acl_validation child =
        skip_acl_validation
          (ConnectionContext_root NumberOfFamilies NONE_COMMANDS blank owner cred) /\
      has_main_or_memcache_listener child =
        has_main_or_memcache_listener
          (ConnectionContext_root NumberOfFamilies NONE_COMMANDS blank owner cred).
Proof.
  repeat (split; [reflexivity|]). split.
  - intros Hpos. cbn [ConnectionContext_root acl_commands].
    destruct (bool_decide (cred_acl_commands cred = [])) eqn:Hd.
    + destruct NumberOfFamilies; [lia | discriminate].
    + apply bool_decide_eq_false in Hd. exact Hd.
  - intros h this p tx Hp Hne. unfold ConnectionContext_squashed. rewrite Hp.
    destruct tx as [t|], owner as [cn|]; eexists;
      (split; [reflexivity|]); repeat split; reflexivity.
Qed.

End MoreContexts.

(** ** The further properties at concrete inputs *)

Lemma ChangeSubscriptions_set_semantics_witness :
  (ChangeSubscriptions lp64 0 context_ab ["c"; "d"; "c"] false true true).1.2 =
  (ChangeSubscriptions lp64 0 context_ab ["d"; "c"] false true false).1.2.
Proof.
  apply (ChangeSubscriptions_set_semantics lp64 0 context_ab
           ["c"; "d"; "c"] ["d"; "c"] false true true false).
  intros x. rewrite !elem_of_cons, !elem_of_nil. tauto.
Defined.

Lemma ChangeSubscriptions_running_counts_witness :
  length (ChangeSubscriptions lp64 0 context_ab ["b"; "c"] false true true).1.1 =
    length ["b"; "c"] /\
  (ChangeSubscriptions lp64 0 context_ab ["b"; "c"] false true true).1.1 !! 1%nat =
    Some (SubscriptionCount
            (info_after false true (take 2 ["b"; "c"])
               (info_or_empty (subscribe_info (conn_state context_ab))))).
Proof.
  destruct (ChangeSubscriptions_running_counts lp64 0 context_ab ["b"; "c"]
              false true (or_introl eq_refl)) as [Hlen Hat].
  split; [exact Hlen|]. apply (Hat 1%nat). simpl. lia.
Defined.

Lemma ChangeSubscriptions_records_changes_witness :
  exists csu,
    Applied csu ∈
      (ChangeSubscriptions lp64 0 context_ab ["b"; "c"; "c"] false true false).2 /\
    csu_pattern csu = false /\
    csu_to_add csu = true /\
    csu_tid csu = u32 0 /\
    NoDup (csu_ops csu) /\
    forall x : string,
      x ∈ csu_ops csu <->
      x ∈ ["b"; "c"; "c"] /\
      x ∉ local_store false (info_or_empty (subscribe_info (conn_state context_ab))).
Proof.
  apply (ChangeSubscriptions_records_changes lp64 0 context_ab ["b"; "c"; "c"]
           false true false).
  left. reflexivity.
Defined.

Lemma ChangeSubscriptions_no_change_witness :
  (ChangeSubscriptions lp64 0 context_ab ["a"; "b"] false true true).1.2 =
    context_ab /\
  (ChangeSubscriptions lp64 0 context_ab ["a"; "b"] false true true).2 =
    [Applied {| csu_pattern := false; csu_to_add := true; csu_tid := u32 0;
                csu_ops := [] |}].
Proof.
  apply (ChangeSubscriptions_no_change lp64 0 context_ab ["a"; "b"] false true true
           {| channels := {["a"; "b"]}; patterns := ∅ |}).
  - reflexivity.
  - discriminate.
  - intros x. rewrite !elem_of_cons, elem_of_nil. cbn [local_store channels].
    intros [-> | [-> | []]]; apply (bool_decide_unpack _); vm_compute; exact I.
Defined.

Lemma subscribe_then_unsubscribe_witness :
  (ChangeSubscriptions lp64 1
     (ChangeSubscriptions lp64 0 fresh_context ["x"; "y"] true true true).1.2
     ["x"; "y"] true false false).1.2 = fresh_context.
Proof.
  apply (subscribe_then_unsubscribe lp64 0 1 fresh_context ["x"; "y"] true true false).
  - exact I.
  - intros x _. apply not_elem_of_empty.
  - simpl. lia.
  - simpl. lia.
Defined.

Lemma Unsubscribe_as_ChangeSubscriptions_witness :
  fst <$> Unsubscribe lp64 context_ab "a" =
  Some (ChangeSubscriptions lp64 0 context_ab ["a"] false false false).1.2.
Proof.
  apply (Unsubscribe_as_ChangeSubscriptions lp64 0 context_ab "a" false
           {| channels := {["a"; "b"]}; patterns := ∅ |}).
  reflexivity.
Defined.

Lemma UnsubscribeAll_removes_all_witness :
  exists rb',
    UnsubscribeAll_in ["b"; "a"] lp64 0 context_ab true [] =
    Some (set_subscribe_info None (wrap (subs_bits lp64) (1 - 1)) context_ab,
          rb',
          [Applied {| csu_pattern := false; csu_to_add := false; csu_tid := u32 0;
                      csu_ops := ["b"; "a"] |}; InfoReset]).
Proof.
  destruct (UnsubscribeAll_removes_all lp64 0 context_ab true []
              {| channels := {["a"; "b"]}; patterns := ∅ |} ["b"; "a"] eq_refl)
    as [Hc _].
  - apply (bool_decide_unpack _). vm_compute. exact I.
  - destruct Hc as [rb' Heq].
    + cbn [channels]. apply (bool_decide_unpack _). vm_compute. exact I.
    + intros x. cbn [channels]. set_solver.
    + exists rb'. rewrite Heq. reflexivity.
Defined.

Lemma unsubscribe_everything_witness :
  exists cx1 eff1,
    UnsubscribeAll lp64 0 context_a_p false [] = Some (cx1, [], eff1) /\
    is_Some (subscribe_info (conn_state cx1)) /\
    exists eff2,
      PUnsubscribeAll lp64 0 cx1 false [] =
      Some (set_subscribe_info None
              (wrap (subs_bits lp64) (subscriptions context_a_p - 1)) context_a_p,
            [], eff2).
Proof.
  destruct (unsubscribe_everything lp64 0 context_a_p []
              {| channels := {["a"]}; patterns := {["p"]} |} eq_refl)
    as (cx1 & eff1 & Heq & _ & Hpat).
  exists cx1, eff1. split; [exact Heq|]. apply Hpat.
  cbn [patterns]. apply (bool_decide_unpack _). vm_compute. exact I.
Defined.

Lemma UnsubscribeAll_nothing_to_remove_witness :
  UnsubscribeAll lp64 0
    (set_subscribe_info (Some {| channels := ∅; patterns := {["p"]} |}) 1
       fresh_context) true [] =
  Some (set_subscribe_info (Some {| channels := ∅; patterns := {["p"]} |}) 1
          fresh_context,
        [] ++ push_frame "unsubscribe" None 0, []).
Proof.
  apply (UnsubscribeAll_nothing_to_remove lp64 0
           (set_subscribe_info (Some {| channels := ∅; patterns := {["p"]} |}) 1
              fresh_context) []).
  reflexivity.
Defined.
